(** * CRAAM: the generic decision-process container [GRMDP]

    A shallow embedding of [include/RMDP.hpp] (namespace [craam]): the state
    table with its accessors, the validation of a policy pair, the vector of
    expected rewards and the two dense transition matrices of a fixed policy
    pair.

    Conventions of the embedding.
    - [long] identifiers are [Z]; [size_t] loop counters are [nat].
    - [vector<T>] is [list T]; [v[i]] is unchecked in C++, so an access
      outside the vector is the error [Undefined].
    - [assert(c)] with [c] false is the error [AssertionFailed].
    - [prec_t] (a C++ [double]) is idealised as an exact rational ([Qc]).
      The container only copies such values around; rounding is not
      represented.
    - [#pragma omp parallel for] loops write disjoint slots of their result
      and only read the table, so they are embedded as the sequential loop. *)

From Stdlib Require Import ZArith Lia QArith Qcanon Ascii.
From stdpp Require Import base tactics numbers option strings pretty list.

Local Open Scope Z_scope.

(** ** Results of operations that can fail *)

Inductive error : Type :=
  | AssertionFailed
  | Undefined.

Inductive res (A : Type) : Type :=
  | Ok (a : A)
  | Err (e : error).

Arguments Ok {A} a.
Arguments Err {A} e.

Definition bind {A B : Type} (m : res A) (k : A → res B) : res B :=
  match m with
  | Ok a => k a
  | Err e => Err e
  end.

Notation "'let*' x ':=' m 'in' k" := (bind m (fun x => k))
  (at level 10, x name, m at level 100, k at level 200).

(** A counted loop [for (i = from; i < from + count; i++) acc = body i acc],
    stopping at the first failing iteration. *)
Fixpoint for_loop {A : Type} (from : nat) (count : nat)
    (body : nat → A → res A) (acc : A) : res A :=
  match count with
  | O => Ok acc
  | S count' =>
      let* acc' := body from acc in
      for_loop (S from) count' body acc'
  end.

(** A range-for that rewrites every element in place, stopping at the first
    failing one. *)
Fixpoint res_map {A B : Type} (f : A → res B) (l : list A) : res (list B) :=
  match l with
  | [] => Ok []
  | x :: l' =>
      let* y := f x in
      let* l'' := res_map f l' in
      Ok (y :: l'')
  end.

(** ** Numbers, vectors and dense matrices *)

(** [typedef double prec_t] and [typedef vector<prec_t> numvec] *)
Abbreviation prec_t := Qc (only parsing).

Abbreviation numvec := (list Qc) (only parsing).

(** [v[i]] on a [vector]. *)
Definition vec_get {A : Type} (v : list A) (i : nat) : res A :=
  match v !! i with
  | Some x => Ok x
  | None => Err Undefined
  end.

(** [v[i] = x] on a [vector]. *)
Definition vec_set {A : Type} (v : list A) (i : nat) (x : A) : res (list A) :=
  if decide (i < length v)%nat then Ok (<[i := x]> v) else Err Undefined.

(** [vector::resize(n)]: truncates, or appends copies of the default value. *)
Definition vec_resize {A : Type} (dflt : A) (v : list A) (n : nat) : list A :=
  take n v ++ replicate (n - length v) dflt.

(** [ublas::matrix<prec_t>], kept as the list of its rows. *)
Abbreviation matrix := (list (list Qc)) (only parsing).

(** [ublas::zero_matrix<prec_t>(n, m)]. *)
Definition zero_matrix (n m : nat) : matrix :=
  replicate n (replicate m 0%Qc).

(** Reading the element [(i, j)]; [None] outside the matrix. *)
Definition mat_get (M : matrix) (i j : nat) : option prec_t :=
  match M !! i with
  | Some row => row !! j
  | None => None
  end.

(** [M(i, j) = x]. The indices arrive as [long] values converted to
    [size_t]; an index outside the matrix is not a defined access. *)
Definition mat_set (M : matrix) (i j : Z) (x : prec_t) : res matrix :=
  if decide (0 ≤ i ∧ 0 ≤ j) then
    match M !! Z.to_nat i with
    | Some row =>
        if decide (Z.to_nat j < length row)%nat
        then Ok (<[Z.to_nat i := <[Z.to_nat j := x]> row]> M)
        else Err Undefined
    | None => Err Undefined
    end
  else Err Undefined.

(** Sum of a vector of numbers. *)
Definition vec_sum (v : numvec) : prec_t := foldr Qcplus 0%Qc v.

(** ** Transitions *)

(** Modelled from the spec: the class [Transition] ([Transition.hpp] is not
    part of the sources at hand). The spec describes an outcome as a sparse
    distribution over target state ids, held as parallel collections of
    target id, probability and reward. The three collections are kept as one
    list of entries, which makes them parallel by construction. *)
Record entry : Type := mk_entry {
  e_index : Z;
  e_prob : prec_t;
  e_reward : prec_t
}.

Abbreviation Transition := (list entry) (only parsing).

Definition get_indices (t : Transition) : list Z := map e_index t.
Definition get_probabilities (t : Transition) : numvec := map e_prob t.
Definition get_rewards (t : Transition) : numvec := map e_reward t.
Definition t_size (t : Transition) : nat := length t.

(** Modelled from the spec: the total probability weight of an outcome. *)
Definition sum_probabilities (t : Transition) : prec_t :=
  vec_sum (get_probabilities t).

(** Modelled from the spec: [Transition::is_normalized]; "normalized" means
    that the probability entries sum to 1. *)
Definition t_is_normalized (t : Transition) : bool :=
  bool_decide (sum_probabilities t = 1%Qc).

(** Modelled from the spec: [Transition::normalize] rescales the
    probabilities to sum to 1. The spec leaves the result open when the total
    weight is exactly zero; the model returns no transition there. *)
Definition t_normalize (t : Transition) : res Transition :=
  let sp := sum_probabilities t in
  if decide (sp = 0%Qc) then Err Undefined
  else Ok (map (λ e, mk_entry (e_index e) (e_prob e / sp)%Qc (e_reward e)) t).

(** Modelled from the spec: the expected immediate reward of an outcome. *)
Definition t_mean_reward (t : Transition) : prec_t :=
  vec_sum (map (λ e, (e_prob e * e_reward e)%Qc) t).

(** ** The state interface *)

(** Modelled from the spec: the members of the state type that the container
    calls. [GRMDP] is a template over the state type [SType], and [State.hpp]
    is not part of the sources at hand; the spec lists this capability set
    for every state variant. A member that the spec leaves undefined on some
    arguments returns an error there. *)
Class StateType (SType : Type) : Type := {
  ActionId : Type;
  OutcomeId : Type;
  AType : Type;
  (** [SType()], the value [vector::resize] fills new slots with *)
  state_default : SType;
  get_actions : SType → list AType;
  get_outcomes : AType → list Transition;
  is_terminal : SType → bool;
  mean_reward : SType → ActionId → OutcomeId → res prec_t;
  mean_transition : SType → ActionId → OutcomeId → res Transition;
  is_action_outcome_correct : SType → ActionId → OutcomeId → bool;
  state_normalize : SType → res SType
}.

(** Modelled from the spec: the laws the spec gives for every state variant,
    which the container relies on when it calls into a state. *)
Class StateLaws (SType : Type) `{StateType SType} : Prop := {
  (** a state is terminal iff it owns zero actions *)
  terminal_no_actions :
    ∀ s, is_terminal s = true ↔ get_actions s = [];
  (** a default-constructed state owns no action *)
  default_no_actions : get_actions state_default = [];
  (** resolving a transition on a terminal state is undefined *)
  terminal_unresolved :
    ∀ s a o t, is_terminal s = true → mean_transition s a o ≠ Ok t;
  (** a valid index pair resolves *)
  correct_mean_reward :
    ∀ s a o, is_action_outcome_correct s a o = true →
      ∃ r, mean_reward s a o = Ok r;
  correct_mean_transition :
    ∀ s a o, is_action_outcome_correct s a o = true →
      ∃ t, mean_transition s a o = Ok t
}.

(** ** The container *)

(** [typedef vector<ActionId> ActionPolicy] and
    [typedef vector<OutcomeId> OutcomePolicy] *)
Abbreviation ActionPolicy := (list ActionId) (only parsing).
Abbreviation OutcomePolicy := (list OutcomeId) (only parsing).

Section GRMDP.
Context {SType : Type} `{StateType SType}.

(** [GRMDP(long state_count)]: all states are initially terminal. *)
Definition GRMDP_new (state_count : nat) : list SType :=
  replicate state_count state_default.

Definition state_count (states : list SType) : nat := length states.

(** [SType& create_state(long stateid)]; the result is the table after the
    call and the state the returned reference designates. *)
Definition create_state (states : list SType) (stateid : Z)
    : res (list SType * SType) :=
  if decide (stateid >= 0) then
    let states' :=
      if decide (stateid >= Z.of_nat (length states))
      then vec_resize state_default states (Z.to_nat (stateid + 1))
      else states in
    let* st := vec_get states' (Z.to_nat stateid) in
    Ok (states', st)
  else Err AssertionFailed.

(** [SType& create_state()] *)
Definition create_state_end (states : list SType) : res (list SType * SType) :=
  create_state states (Z.of_nat (length states)).

(** [get_state(long stateid)]; the const and the mutable overload have the
    same body. *)
Definition get_state (states : list SType) (stateid : Z) : res SType :=
  if decide (stateid >= 0 ∧ (Z.to_nat stateid < state_count states)%nat)
  then vec_get states (Z.to_nat stateid)
  else Err AssertionFailed.

(** [bool is_normalized() const] *)
Definition is_normalized (states : list SType) : bool :=
  forallb (λ s,
    forallb (λ a,
      forallb t_is_normalized (get_outcomes a))
    (get_actions s))
  states.

(** [void normalize()]: every state is normalized in turn, in place; the
    result is the table after the call. *)
Definition normalize (states : list SType) : res (list SType) :=
  res_map state_normalize states.

(** One iteration of the loop of [rewards_state]. *)
Definition rewards_state_body (states : list SType)
    (policy : ActionPolicy) (nature : OutcomePolicy)
    (s : nat) (rewards : numvec) : res numvec :=
  let* state := get_state states (Z.of_nat s) in
  if is_terminal state then vec_set rewards s 0%Qc
  else
    let* a := vec_get policy s in
    let* o := vec_get nature s in
    let* r := mean_reward state a o in
    vec_set rewards s r.

(** [numvec rewards_state(policy, nature) const] *)
Definition rewards_state (states : list SType)
    (policy : ActionPolicy) (nature : OutcomePolicy) : res numvec :=
  let n := state_count states in
  for_loop 0 n (rewards_state_body states policy nature) (replicate n 0%Qc).

(** The loop of [is_policy_correct] from state [si] on, over [count]
    states: terminal states are skipped, the first state whose pair is
    rejected is returned. *)
Fixpoint is_policy_correct_from (states : list SType)
    (policy : ActionPolicy) (natpolicy : OutcomePolicy)
    (si : nat) (count : nat) : res Z :=
  match count with
  | O => Ok (-1)
  | S count' =>
      let* state := vec_get states si in
      if is_terminal state then
        is_policy_correct_from states policy natpolicy (S si) count'
      else
        let* a := vec_get policy si in
        let* o := vec_get natpolicy si in
        if negb (is_action_outcome_correct state a o) then Ok (Z.of_nat si)
        else is_policy_correct_from states policy natpolicy (S si) count'
  end.

(** [long is_policy_correct(policy, natpolicy) const] *)
Definition is_policy_correct (states : list SType)
    (policy : ActionPolicy) (natpolicy : OutcomePolicy) : res Z :=
  is_policy_correct_from states policy natpolicy 0 (length states).

(** The inner loop of [transition_mat]:
    [result(s, indexes[j]) = probabilities[j]]. *)
Definition fill_row_body (s : nat) (t : Transition)
    (j : nat) (result : matrix) : res matrix :=
  let* idx := vec_get (get_indices t) j in
  let* p := vec_get (get_probabilities t) j in
  mat_set result (Z.of_nat s) idx p.

(** One iteration of the outer loop of [transition_mat]. *)
Definition transition_mat_body (states : list SType)
    (policy : ActionPolicy) (nature : OutcomePolicy)
    (s : nat) (result : matrix) : res matrix :=
  let* state := vec_get states s in
  let* a := vec_get policy s in
  let* o := vec_get nature s in
  let* t := mean_transition state a o in
  for_loop 0 (t_size t) (fill_row_body s t) result.

(** [transition_mat(policy, nature) const] *)
Definition transition_mat (states : list SType)
    (policy : ActionPolicy) (nature : OutcomePolicy) : res matrix :=
  let n := state_count states in
  for_loop 0 n (transition_mat_body states policy nature) (zero_matrix n n).

(** The inner loop of [transition_mat_t]:
    [result(indexes[j], s) = probabilities[j]]. *)
Definition fill_col_body (s : nat) (t : Transition)
    (j : nat) (result : matrix) : res matrix :=
  let* idx := vec_get (get_indices t) j in
  let* p := vec_get (get_probabilities t) j in
  mat_set result idx (Z.of_nat s) p.

(** One iteration of the outer loop of [transition_mat_t]; a terminal
    state keeps its zero probabilities. *)
Definition transition_mat_t_body (states : list SType)
    (policy : ActionPolicy) (nature : OutcomePolicy)
    (s : nat) (result : matrix) : res matrix :=
  let* state := vec_get states s in
  if is_terminal state then Ok result
  else
    let* a := vec_get policy s in
    let* o := vec_get nature s in
    let* t := mean_transition state a o in
    for_loop 0 (t_size t) (fill_col_body s t) result.

(** [transition_mat_t(policy, nature) const] *)
Definition transition_mat_t (states : list SType)
    (policy : ActionPolicy) (nature : OutcomePolicy) : res matrix :=
  let n := state_count states in
  for_loop 0 n (transition_mat_t_body states policy nature) (zero_matrix n n).

End GRMDP.

(** ** Export of the table *)

(** The line feed that [endl] writes. *)
Definition endl : string := String "010"%char EmptyString.

(** The double quote character, as a string. *)
Definition dquote : string := String "034"%char EmptyString.

(** [string::pop_back]: removes the last character; not defined on the
    empty string. *)
Fixpoint pop_back (s : string) : res string :=
  match s with
  | EmptyString => Err Undefined
  | String c EmptyString => Ok EmptyString
  | String c s' => let* r := pop_back s' in Ok (String c r)
  end.

Section GRMDP_export.
Context {SType : Type} `{StateType SType}.

(** The text that an output stream writes for a [prec_t] value. The
    formatting of a C++ [double] is not represented; it is a parameter. *)
Variable show_prec : Qc → string.

(** [SType::to_json(long stateid)], a member of the state type that the
    container calls; it is a parameter. *)
Variable state_to_json : SType → Z → string.

(** The header line of [to_csv]. *)
Definition csv_header : string :=
  "idstatefrom," +:+ "idaction," +:+ "idoutcome," +:+ "idstateto," +:+
  "probability," +:+ "reward" +:+ endl.

(** One row of [to_csv]:
    [i , j , k , indices[l] , probabilities[l] , rewards[l] endl]. *)
Definition csv_row (i j k : nat) (idx : Z) (p r : Qc) : string :=
  pretty i +:+ "," +:+ pretty j +:+ "," +:+ pretty k +:+ "," +:+
  pretty idx +:+ "," +:+ show_prec p +:+ "," +:+ show_prec r +:+ endl.

(** The innermost loop of [to_csv], over the entries of one outcome. *)
Definition to_csv_entries (i j k : nat) (tran : Transition)
    (l : nat) (output : string) : res string :=
  let* idx := vec_get (get_indices tran) l in
  let* p := vec_get (get_probabilities tran) l in
  let* r := vec_get (get_rewards tran) l in
  Ok (output +:+ csv_row i j k idx p r).

(** The loop of [to_csv] over the outcomes of one action. *)
Definition to_csv_outcomes (i j : nat) (outcomes : list Transition)
    (k : nat) (output : string) : res string :=
  let* tran := vec_get outcomes k in
  for_loop 0 (t_size tran) (to_csv_entries i j k tran) output.

(** The loop of [to_csv] over the actions of one state. *)
Definition to_csv_actions (i : nat) (actions : list AType)
    (j : nat) (output : string) : res string :=
  let* act := vec_get actions j in
  let outcomes := get_outcomes act in
  for_loop 0 (length outcomes) (to_csv_outcomes i j outcomes) output.

(** The loop of [to_csv] over the states. *)
Definition to_csv_states (states : list SType)
    (i : nat) (output : string) : res string :=
  let* st := vec_get states i in
  let actions := get_actions st in
  for_loop 0 (length actions) (to_csv_actions i actions) output.

(** [void to_csv(ostream& output, bool header) const]; the stream is the
    text written to it so far. *)
Definition to_csv (states : list SType) (output : string) (header : bool)
    : res string :=
  let output := if header then output +:+ csv_header else output in
  for_loop 0 (length states) (to_csv_states states) output.

(** The text that [to_json] starts from: an open brace, the word states
    between double quotes, a colon and an open bracket. *)
Definition json_open : string :=
  "{" +:+ dquote +:+ "states" +:+ dquote +:+ " : [".

(** The loop of [to_json]: the text of each state, then a comma. *)
Definition to_json_body (states : list SType)
    (si : nat) (result : string) : res string :=
  let* s := vec_get states si in
  Ok ((result +:+ state_to_json s (Z.of_nat si)) +:+ ",").

(** [string to_json() const] *)
Definition to_json (states : list SType) : res string :=
  let result := json_open in
  let* result := for_loop 0 (length states) (to_json_body states) result in
  let* result :=
    if bool_decide (states ≠ []) then pop_back result else Ok result in
  Ok (result +:+ "]}").

End GRMDP_export.

(** ** A state with indexed actions and outcomes *)

(** Modelled from the spec: an action owns zero or more outcomes, each one
    member of nature's uncertainty set ([Action.hpp] is not part of the
    sources at hand). *)
Record Action : Type := mk_action {
  outcomes : list Transition
}.

(** Modelled from the spec: a state owns zero or more actions ([State.hpp]
    is not part of the sources at hand). *)
Record State : Type := mk_state {
  actions : list Action
}.

(** The element a [long] id designates, if any. *)
Definition at_id {A : Type} (v : list A) (id : Z) : option A :=
  if decide (0 ≤ id) then v !! Z.to_nat id else None.

(** Modelled from the spec: the outcome a pair of ids resolves to; the
    action id indexes the state's actions, the outcome id the outcomes of
    that action. Nothing is resolved when either id designates nothing, in
    particular on a terminal state. The lookup does not inspect the outcome
    it finds: an outcome without entries, which the spec counts as a model
    error, is returned as it is stored. *)
Definition resolve (s : State) (a o : Z) : res Transition :=
  match at_id (actions s) a with
  | Some act =>
      match at_id (outcomes act) o with
      | Some t => Ok t
      | None => Err Undefined
      end
  | None => Err Undefined
  end.

(** Modelled from the spec: terminal iff the state owns zero actions. *)
Definition State_is_terminal (s : State) : bool :=
  match actions s with
  | [] => true
  | _ :: _ => false
  end.

(** Modelled from the spec: the validity check of a pair of ids: the action
    id indexes an existing action of the state and the outcome id an existing
    outcome of that action. *)
Definition State_is_action_outcome_correct (s : State) (a o : Z) : bool :=
  match at_id (actions s) a with
  | Some act =>
      match at_id (outcomes act) o with
      | Some _ => true
      | None => false
      end
  | None => false
  end.

(** Modelled from the spec: the resolved expected immediate reward. *)
Definition State_mean_reward (s : State) (a o : Z) : res prec_t :=
  let* t := resolve s a o in Ok (t_mean_reward t).

(** Modelled from the spec: normalizing a state rescales every outcome of
    every action. *)
Definition Action_normalize (act : Action) : res Action :=
  let* ts := res_map t_normalize (outcomes act) in Ok (mk_action ts).

Definition State_normalize (s : State) : res State :=
  let* acts := res_map Action_normalize (actions s) in Ok (mk_state acts).

(** Modelled from the spec: the indexed state as an instance of the state
    interface, with [long] action and outcome ids. *)
#[export] Instance State_StateType : StateType State := {|
  ActionId := Z;
  OutcomeId := Z;
  AType := Action;
  state_default := mk_state [];
  get_actions := actions;
  get_outcomes := outcomes;
  is_terminal := State_is_terminal;
  mean_reward := State_mean_reward;
  mean_transition := resolve;
  is_action_outcome_correct := State_is_action_outcome_correct;
  state_normalize := State_normalize
|}.

(** Abbreviation of the decision-process type over [State]. *)
Abbreviation MDP := (list State) (only parsing).

(** A state with one action and one outcome: a single transition to
    [target] with probability [p] and reward [r]. *)
Definition single (target : Z) (p r : prec_t) : Action :=
  mk_action [[mk_entry target p r]].

(** The three-state model of the spec's property P6: action 0 moves
    s0→s1 (reward 0), s1→s1 (reward 1), s2→s1 (reward 1); action 1 moves
    s0→s1 (reward 0), s1→s2 (reward 0), s2→s2 (reward 1.1); every
    probability is 1. *)
Definition mdp3 : MDP :=
  [ mk_state [single 1 1 0; single 1 1 0]%Qc;
    mk_state [single 1 1 1; single 2 1 0]%Qc;
    mk_state [single 1 1 1; single 2 1 (Q2Qc (11 # 10))]%Qc ].

(** A state whose single outcome lists target 0 twice, with probabilities
    1/4 and then 1/2. *)
Definition twice : MDP :=
  [ mk_state [mk_action [[mk_entry 0 (Q2Qc (1 # 4)) 0%Qc;
                          mk_entry 0 (Q2Qc (1 # 2)) 0%Qc]]] ].

(** Two states: state 0 moves to state 1 with probability 1, state 1 is
    terminal. *)
Definition absorbing : MDP :=
  [ mk_state [single 1 1%Qc 0%Qc]; mk_state [] ].

(** One state whose single outcome has the weights 1 and 3. *)
Definition unnormalized : MDP :=
  [ mk_state [mk_action [[mk_entry 0 1%Qc 0%Qc;
                          mk_entry 0 (Q2Qc 3) 0%Qc]]] ].

(** A text for a number, for the examples of the export: numerator, a
    slash, denominator. *)
Definition show_fraction (q : Qc) : string :=
  pretty (Qnum (this q)) +:+ "/" +:+ pretty (Zpos (Qden (this q))).

(** * Vocabulary of the properties *)

(** ** Distributions and matrices *)

(** The probability of the last entry of [t] that the map [cell] sends to
    the cell [(i, j)]. *)
Definition last_hit (cell : Z → Z * Z) (t : list entry) (i j : nat)
    : option Qc :=
  e_prob <$>
    list.last (filter (λ e, cell (e_index e) = (Z.of_nat i, Z.of_nat j)) t).

(** The probability of the last entry of [t] that targets state [j]. *)
Definition last_prob (t : list entry) (j : nat) : option Qc :=
  e_prob <$> list.last (filter (λ e, e_index e = Z.of_nat j) t).

(** The common shape of the two inner loops: entry [j] of [t] is assigned
    to the cell that [cell] gives for its target. *)
Definition fill_body (cell : Z → Z * Z) (t : list entry)
    (j : nat) (result : list (list Qc)) : res (list (list Qc)) :=
  let* idx := vec_get (get_indices t) j in
  let* p := vec_get (get_probabilities t) j in
  mat_set result (cell idx).1 (cell idx).2 p.

(** The cells a distribution is written to lie inside the matrix. *)
Definition cells_in (cell : Z → Z * Z) (M : list (list Qc)) (t : list entry)
    : Prop :=
  ∀ e, e ∈ t →
    0 ≤ (cell (e_index e)).1 ∧ 0 ≤ (cell (e_index e)).2 ∧
    is_Some (mat_get M (Z.to_nat (cell (e_index e)).1)
                       (Z.to_nat (cell (e_index e)).2)).

(** Every target of [t] is a state id below [n]. *)
Definition targets_below (n : nat) (t : list entry) : Prop :=
  ∀ e, e ∈ t → 0 ≤ e_index e < Z.of_nat n.

(** Row [s] of [M] holds, for each target, the probability of the last entry
    of [t] with that target, and 0 for the targets that [t] does not list. *)
Definition row_of (n : nat) (M : list (list Qc)) (s : nat) (t : list entry)
    : Prop :=
  ∀ j, (j < n)%nat → mat_get M s j = Some (default 0%Qc (last_prob t j)).

(** The same for column [s]. *)
Definition col_of (n : nat) (M : list (list Qc)) (s : nat) (t : list entry)
    : Prop :=
  ∀ j, (j < n)%nat → mat_get M j s = Some (default 0%Qc (last_prob t j)).

(** [M] has [n] rows and [n] columns. *)
Definition square (n : nat) (M : list (list Qc)) : Prop :=
  ∀ i j, is_Some (mat_get M i j) ↔ (i < n ∧ j < n)%nat.

(** Every outcome of the table has a nonzero total probability weight. *)
Definition nonzero_weights (states : list State) : Prop :=
  ∀ s a t, s ∈ states → a ∈ actions s → t ∈ outcomes a →
    sum_probabilities t ≠ 0%Qc.

(** The texts of a list, one after the other. *)
Definition concat_text (texts : list string) : string :=
  foldr String.append EmptyString texts.

(** ** Tables and policy pairs *)

Section GRMDP_vocabulary.
Context {SType : Type} `{StateType SType}.

(** State [s] exists, is not terminal, and rejects the pair chosen for it. *)
Definition violates (states : list SType)
    (policy : ActionPolicy) (natpolicy : OutcomePolicy) (s : nat) : Prop :=
  ∃ st a o,
    states !! s = Some st ∧ is_terminal st = false ∧
    policy !! s = Some a ∧ natpolicy !! s = Some o ∧
    is_action_outcome_correct st a o = false.

(** Two tables with their policy pairs are the same up to state [s]. *)
Definition agree_upto (s : nat)
    (states1 : list SType) (policy1 : ActionPolicy) (natpolicy1 : OutcomePolicy)
    (states2 : list SType) (policy2 : ActionPolicy) (natpolicy2 : OutcomePolicy)
    : Prop :=
  ∀ i, (i ≤ s)%nat →
    states2 !! i = states1 !! i ∧ policy2 !! i = policy1 !! i ∧
    natpolicy2 !! i = natpolicy1 !! i.

(** What [rewards_state] has to leave in slot [s] for the state [st]. *)
Definition reward_entry (policy : ActionPolicy) (nature : OutcomePolicy)
    (rewards : numvec) (s : nat) (st : SType) : Prop :=
  (is_terminal st = true → rewards !! s = Some 0%Qc) ∧
  (is_terminal st = false →
     ∃ a o r, policy !! s = Some a ∧ nature !! s = Some o ∧
              mean_reward st a o = Ok r ∧ rewards !! s = Some r).

(** The distribution that state [s] resolves to under the policy pair. *)
Definition resolved (states : list SType)
    (policy : ActionPolicy) (nature : OutcomePolicy) (s : nat)
    : option (list entry) :=
  st ← states !! s;
  a ← policy !! s;
  o ← nature !! s;
  match mean_transition st a o with
  | Ok t => Some t
  | Err _ => None
  end.

(** Two policy pairs choose the same action and outcome at every state of
    the table that is not terminal. *)
Definition agree_nonterminal (states : list SType)
    (policy1 : ActionPolicy) (nature1 : OutcomePolicy)
    (policy2 : ActionPolicy) (nature2 : OutcomePolicy) : Prop :=
  ∀ s st, states !! s = Some st → is_terminal st = false →
    policy1 !! s = policy2 !! s ∧ nature1 !! s = nature2 !! s.

(** Every state that is not terminal has an action and an outcome chosen
    for it that resolve to a reward. *)
Definition rewards_resolve (states : list SType)
    (policy : ActionPolicy) (nature : OutcomePolicy) : Prop :=
  ∀ s st, states !! s = Some st → is_terminal st = false →
    ∃ a o r, policy !! s = Some a ∧ nature !! s = Some o ∧
             mean_reward st a o = Ok r.

(** The text [to_csv] has to write for the table: the rows of every entry,
    in the order of states, actions, outcomes and entries. *)
Definition csv_text (show_prec : Qc → string) (states : list SType) : string :=
  concat_text (imap (λ i st,
    concat_text (imap (λ j act,
      concat_text (imap (λ k tran,
        concat_text (imap (λ _ e,
          csv_row show_prec i j k (e_index e) (e_prob e) (e_reward e)) tran))
        (get_outcomes act)))
      (get_actions st)))
    states).

(** The texts that [to_json] has to separate by commas: the text of every
    state, called with the id of the state. *)
Definition json_states (state_to_json : SType → Z → string)
    (states : list SType) : list string :=
  imap (λ si s, state_to_json s (Z.of_nat si)) states.

End GRMDP_vocabulary.

(** * Properties *)

(** ** The error monad and the loops *)

Lemma bind_Ok {A B : Type} (m : res A) (k : A → res B) (b : B) :
  bind m k = Ok b ↔ ∃ a, m = Ok a ∧ k a = Ok b.
Proof.
  destruct m as [a|e]; simpl; split.
  - intros Hk. by exists a.
  - by intros (a' & [= <-] & Hk).
  - discriminate.
  - by intros (a' & [=] & _).
Qed.

Lemma vec_get_Ok {A : Type} (v : list A) (i : nat) (x : A) :
  vec_get v i = Ok x ↔ v !! i = Some x.
Proof.
  unfold vec_get. destruct (v !! i); split; intros Heq; by simplify_eq.
Qed.

Lemma vec_get_Err {A : Type} (v : list A) (i : nat) (e : error) :
  vec_get v i = Err e → (length v ≤ i)%nat.
Proof.
  unfold vec_get. destruct (v !! i) eqn:Hl; [discriminate|].
  intros _. by apply lookup_ge_None.
Qed.

Lemma vec_set_Ok {A : Type} (v v' : list A) (i : nat) (x : A) :
  vec_set v i x = Ok v' ↔ (i < length v)%nat ∧ v' = <[i := x]> v.
Proof.
  unfold vec_set. case_decide; split; intros Heq.
  - by simplify_eq.
  - destruct Heq as [_ ->]. done.
  - discriminate.
  - by destruct Heq.
Qed.

(** Inversion of a successful computation, one [bind] or access at a time. *)
Ltac res_inv :=
  repeat match goal with
  | Hb : bind _ _ = Ok _ |- _ =>
      let a := fresh "a" in
      let Ha := fresh "Ha" in
      apply bind_Ok in Hb as (a & Ha & Hb)
  | Hv : vec_get _ _ = Ok _ |- _ => apply vec_get_Ok in Hv
  | Hv : vec_set _ _ _ = Ok _ |- _ =>
      let Hlt := fresh "Hlt" in
      apply vec_set_Ok in Hv as [Hlt Hv]
  | Ho : Ok _ = Ok _ |- _ => injection Ho as Ho
  | He : Err _ = Ok _ |- _ => discriminate He
  end.

(** A loop that ends has kept every invariant its body keeps. *)
Lemma for_loop_inv {A : Type} (I : nat → A → Prop) (body : nat → A → res A)
    (count from : nat) (acc r : A) :
  for_loop from count body acc = Ok r →
  I from acc →
  (∀ i a a', (from ≤ i < from + count)%nat → I i a → body i a = Ok a' →
     I (S i) a') →
  I (from + count)%nat r.
Proof.
  revert from acc. induction count as [|count IH]; intros from acc Hloop H0 Hstep.
  - simpl in Hloop. simplify_eq. by rewrite Nat.add_0_r.
  - simpl in Hloop. apply bind_Ok in Hloop as (acc' & Hbody & Hloop).
    rewrite <- Nat.add_succ_comm. apply (IH (S from) acc' Hloop).
    + apply (Hstep from acc acc'); [lia|done..].
    + intros i a a' Hi. apply Hstep. lia.
Qed.

(** A loop whose body succeeds under the invariant ends. *)
Lemma for_loop_total {A : Type} (I : nat → A → Prop) (body : nat → A → res A)
    (count from : nat) (acc : A) :
  I from acc →
  (∀ i a, (from ≤ i < from + count)%nat → I i a →
     ∃ a', body i a = Ok a' ∧ I (S i) a') →
  ∃ r, for_loop from count body acc = Ok r ∧ I (from + count)%nat r.
Proof.
  revert from acc. induction count as [|count IH]; intros from acc H0 Hstep.
  - exists acc. simpl. by rewrite Nat.add_0_r.
  - destruct (Hstep from acc) as (acc' & Hbody & H1); [lia|done|].
    destruct (IH (S from) acc' H1) as (r & Hloop & Hr).
    + intros i a Hi. apply Hstep. lia.
    + exists r. simpl. rewrite Hbody. simpl. split; [done|].
      by rewrite <- Nat.add_succ_comm.
Qed.

(** A loop that ends has run every iteration to its end. *)
Lemma for_loop_body_Ok {A : Type} (body : nat → A → res A)
    (count from : nat) (acc r : A) (i : nat) :
  for_loop from count body acc = Ok r →
  (from ≤ i < from + count)%nat →
  ∃ a a', body i a = Ok a'.
Proof.
  revert from acc. induction count as [|count IH]; intros from acc Hloop Hi; [lia|].
  simpl in Hloop. apply bind_Ok in Hloop as (acc' & Hbody & Hloop).
  destruct (decide (i = from)) as [->|Hne]; [by eauto|].
  apply (IH (S from) acc' Hloop). lia.
Qed.

(** ** The state table *)

Section GRMDP_table.
Context {SType : Type} `{StateLaws SType}.

Lemma default_is_terminal : is_terminal (state_default : SType) = true.
Proof. apply terminal_no_actions, default_no_actions. Qed.

Lemma vec_resize_length (dflt : SType) (v : list SType) (n : nat) :
  (length v ≤ n)%nat → length (vec_resize dflt v n) = n.
Proof.
  intros Hle. unfold vec_resize.
  rewrite length_app, length_take, length_replicate. lia.
Qed.

Lemma vec_resize_lookup_old (dflt : SType) (v : list SType) (n i : nat) (x : SType) :
  (length v ≤ n)%nat → v !! i = Some x → vec_resize dflt v n !! i = Some x.
Proof.
  intros Hle Hx. unfold vec_resize.
  rewrite take_ge by done. by apply lookup_app_l_Some.
Qed.

Lemma vec_resize_lookup_new (dflt : SType) (v : list SType) (n i : nat) :
  (length v ≤ i < n)%nat → vec_resize dflt v n !! i = Some dflt.
Proof.
  intros Hi. unfold vec_resize.
  rewrite take_ge by lia. rewrite lookup_app_r by lia.
  apply lookup_replicate_2. lia.
Qed.

(** C7. [create_state(id)] with a non-negative id never shrinks the table:
    the state count becomes the maximum of the previous count and [id + 1],
    every state that existed is unchanged, every new slot (the gap below
    [id] included) holds the default state, which is terminal and owns no
    action, and the returned reference designates the state at position
    [id]. *)
Theorem create_state_grows (states : list SType) (stateid : Z) :
  0 ≤ stateid →
  ∃ states' st,
    create_state states stateid = Ok (states', st) ∧
    state_count states' =
      Nat.max (state_count states) (Z.to_nat stateid + 1) ∧
    (∀ i s, states !! i = Some s → states' !! i = Some s) ∧
    (∀ i, (state_count states ≤ i < state_count states')%nat →
       states' !! i = Some state_default) ∧
    is_terminal (state_default : SType) = true ∧
    get_actions (state_default : SType) = [] ∧
    states' !! Z.to_nat stateid = Some st.
Proof.
  intros Hid. unfold create_state, state_count.
  rewrite decide_True by lia.
  destruct (decide (stateid >= Z.of_nat (length states))) as [Hge|Hlt].
  - set (states' := vec_resize state_default states (Z.to_nat (stateid + 1))).
    assert (length states' = Z.to_nat (stateid + 1)) as Hlen
      by (apply vec_resize_length; lia).
    assert (states' !! Z.to_nat stateid = Some state_default) as Hst
      by (apply vec_resize_lookup_new; lia).
    exists states', state_default. unfold vec_get. rewrite Hst. simpl.
    split_and!.
    + done.
    + lia.
    + intros i s Hs. apply vec_resize_lookup_old; [lia|done].
    + intros i Hi. apply vec_resize_lookup_new. lia.
    + apply default_is_terminal.
    + apply default_no_actions.
    + done.
  - destruct (lookup_lt_is_Some_2 states (Z.to_nat stateid)) as [st Hst]; [lia|].
    exists states, st. unfold vec_get. rewrite Hst. simpl.
    split_and!.
    + done.
    + lia.
    + done.
    + intros i Hi. lia.
    + apply default_is_terminal.
    + apply default_no_actions.
    + done.
Qed.

(** [create_state()] appends one default state and returns it. *)
Lemma create_state_end_appends (states : list SType) :
  create_state_end states = Ok (states ++ [state_default], state_default).
Proof.
  unfold create_state_end, create_state.
  rewrite decide_True by lia. rewrite decide_True by lia.
  replace (Z.to_nat (Z.of_nat (length states) + 1)) with (S (length states)) by lia.
  unfold vec_resize. rewrite take_ge by lia.
  replace (S (length states) - length states)%nat with 1%nat by lia. simpl.
  unfold vec_get. rewrite Nat2Z.id.
  by rewrite list_lookup_middle.
Qed.

(** [create_state] rejects a negative id by its assertion. *)
Lemma create_state_negative (states : list SType) (stateid : Z) :
  stateid < 0 → create_state states stateid = Err AssertionFailed.
Proof. intros Hneg. unfold create_state. by rewrite decide_False by lia. Qed.

End GRMDP_table.

Section GRMDP_access.
Context {SType : Type} `{StateType SType}.

(** C8. [get_state(id)] with an id that is negative or not less than the
    state count fails at its assertion; with an id in range it returns the
    state stored at position [id]. *)
Theorem get_state_checked (states : list SType) (stateid : Z) :
  (stateid < 0 ∨ Z.of_nat (state_count states) ≤ stateid →
     get_state states stateid = Err AssertionFailed) ∧
  (0 ≤ stateid < Z.of_nat (state_count states) →
     ∃ st, states !! Z.to_nat stateid = Some st ∧
           get_state states stateid = Ok st).
Proof.
  unfold get_state, state_count. split.
  - intros Hout. rewrite decide_False; [done|]. lia.
  - intros Hin. rewrite decide_True by lia.
    destruct (lookup_lt_is_Some_2 states (Z.to_nat stateid)) as [st Hst]; [lia|].
    exists st. split; [done|]. by apply vec_get_Ok.
Qed.

End GRMDP_access.

(** ** Validation of a policy pair *)

Section GRMDP_policy.
Context {SType : Type} `{StateType SType}.

Lemma is_policy_correct_from_scan (states : list SType)
    (policy : ActionPolicy) (natpolicy : OutcomePolicy) (count si : nat) :
  (si + count ≤ length states)%nat →
  (length states ≤ length policy)%nat →
  (length states ≤ length natpolicy)%nat →
  ∃ r, is_policy_correct_from states policy natpolicy si count = Ok r ∧
    ((r = -1 ∧
      ∀ s, (si ≤ s < si + count)%nat → ¬ violates states policy natpolicy s) ∨
     (∃ s, r = Z.of_nat s ∧ (si ≤ s < si + count)%nat ∧
        violates states policy natpolicy s ∧
        ∀ s', (si ≤ s' < s)%nat → ¬ violates states policy natpolicy s')).
Proof.
  revert si. induction count as [|count IH]; intros si Hsi Hp Hn.
  - exists (-1). split; [done|]. left. split; [done|]. intros s Hs. lia.
  - destruct (lookup_lt_is_Some_2 states si) as [st Hst]; [lia|].
    destruct (lookup_lt_is_Some_2 policy si) as [a Ha]; [lia|].
    destruct (lookup_lt_is_Some_2 natpolicy si) as [o Ho]; [lia|].
    assert (Hhere : is_terminal st = true ∨
                    is_action_outcome_correct st a o = true →
                    ¬ violates states policy natpolicy si).
    { intros Hok (st' & a' & o' & Hst' & Hterm & Ha' & Ho' & Hbad).
      simplify_eq. destruct Hok; congruence. }
    destruct (IH (S si)) as (r & Hr & Hcases); [lia|done|done|].
    assert (Hrest :
      ∃ r, is_policy_correct_from states policy natpolicy (S si) count = Ok r ∧
        (is_terminal st = true ∨ is_action_outcome_correct st a o = true →
         (r = -1 ∧ ∀ s, (si ≤ s < si + S count)%nat →
            ¬ violates states policy natpolicy s) ∨
         (∃ s, r = Z.of_nat s ∧ (si ≤ s < si + S count)%nat ∧
            violates states policy natpolicy s ∧
            ∀ s', (si ≤ s' < s)%nat → ¬ violates states policy natpolicy s'))).
    { exists r. split; [done|]. intros Hok.
      destruct Hcases as [[-> Hnone]|(s & -> & Hs & Hv & Hmin)].
      - left. split; [done|]. intros s Hs.
        destruct (decide (s = si)) as [->|Hne]; [by apply Hhere|].
        apply Hnone. lia.
      - right. exists s. split; [done|]. split; [lia|]. split; [done|].
        intros s' Hs'.
        destruct (decide (s' = si)) as [->|Hne]; [by apply Hhere|].
        apply Hmin. lia. }
    destruct Hrest as (r' & Hr' & Hcases').
    simpl. unfold vec_get at 1. rewrite Hst. simpl.
    destruct (is_terminal st) eqn:Hterm.
    + exists r'. split; [done|]. apply Hcases'. by left.
    + unfold vec_get at 1. rewrite Ha. simpl.
      unfold vec_get at 1. rewrite Ho. simpl.
      destruct (is_action_outcome_correct st a o) eqn:Hcorrect; simpl.
      * exists r'. split; [done|]. apply Hcases'. by right.
      * exists (Z.of_nat si). split; [done|]. right.
        exists si. split; [done|]. split; [lia|]. split.
        -- by exists st, a, o.
        -- intros s' Hs'. lia.
Qed.

(** Once the scan has reached a violating state, nothing behind that state
    is looked at. *)
Lemma is_policy_correct_from_stops
    (states1 : list SType) (policy1 : ActionPolicy) (natpolicy1 : OutcomePolicy)
    (states2 : list SType) (policy2 : ActionPolicy) (natpolicy2 : OutcomePolicy)
    (s : nat) (count si : nat) :
  violates states1 policy1 natpolicy1 s →
  (∀ s', (si ≤ s' < s)%nat → ¬ violates states1 policy1 natpolicy1 s') →
  agree_upto s states1 policy1 natpolicy1 states2 policy2 natpolicy2 →
  (si ≤ s < si + count)%nat →
  is_policy_correct_from states2 policy2 natpolicy2 si count = Ok (Z.of_nat s).
Proof.
  intros (st & a & o & Hst & Hterm & Ha & Ho & Hbad) Hmin Hagree.
  revert si Hmin. induction count as [|count IH]; intros si Hmin Hs; [lia|].
  simpl. destruct (decide (si = s)) as [->|Hne].
  - destruct (Hagree s) as (Hst2 & Ha2 & Ho2); [lia|].
    unfold vec_get. rewrite Hst2, Hst. simpl. rewrite Hterm.
    rewrite Ha2, Ha. simpl. rewrite Ho2, Ho. simpl. by rewrite Hbad.
  - assert (is_policy_correct_from states2 policy2 natpolicy2 (S si) count
            = Ok (Z.of_nat s)) as Hnext.
    { apply IH; [|lia]. intros s' Hs'. apply Hmin. lia. }
    destruct (Hagree si) as (Hst2 & Ha2 & Ho2); [lia|].
    destruct (states1 !! si) as [st1|] eqn:Hst1.
    2: { apply lookup_ge_None in Hst1. apply lookup_lt_Some in Hst. lia. }
    unfold vec_get at 1. rewrite Hst2. simpl.
    destruct (is_terminal st1) eqn:Hterm1; [done|].
    destruct (policy1 !! si) as [a1|] eqn:Ha1.
    2: { apply lookup_ge_None in Ha1. apply lookup_lt_Some in Ha. lia. }
    destruct (natpolicy1 !! si) as [o1|] eqn:Ho1.
    2: { apply lookup_ge_None in Ho1. apply lookup_lt_Some in Ho. lia. }
    unfold vec_get at 1. rewrite Ha2. simpl.
    unfold vec_get at 1. rewrite Ho2. simpl.
    destruct (is_action_outcome_correct st1 a1 o1) eqn:Hc1; simpl; [done|].
    exfalso. apply (Hmin si); [lia|]. by exists st1, a1, o1.
Qed.

(** C6. On a policy pair indexed by all state ids, [is_policy_correct] scans
    the states in ascending order and skips the terminal ones. It returns -1
    when no state is non-terminal with a rejected pair, and otherwise the
    smallest id of such a state; it stops there: tables and pairs that are
    the same up to that state give the same answer, whatever follows. *)
Theorem is_policy_correct_first_violation (states : list SType)
    (policy : ActionPolicy) (natpolicy : OutcomePolicy) :
  (length states ≤ length policy)%nat →
  (length states ≤ length natpolicy)%nat →
  ∃ r, is_policy_correct states policy natpolicy = Ok r ∧
    ((r = -1 ∧ ∀ s, ¬ violates states policy natpolicy s) ∨
     (∃ s, r = Z.of_nat s ∧ (s < length states)%nat ∧
        violates states policy natpolicy s ∧
        (∀ s', (s' < s)%nat → ¬ violates states policy natpolicy s') ∧
        ∀ states2 policy2 natpolicy2,
          agree_upto s states policy natpolicy states2 policy2 natpolicy2 →
          is_policy_correct states2 policy2 natpolicy2 = Ok (Z.of_nat s))).
Proof.
  intros Hp Hn. unfold is_policy_correct.
  destruct (is_policy_correct_from_scan states policy natpolicy (length states) 0)
    as (r & Hr & Hcases); [lia|done|done|].
  exists r. split; [done|].
  destruct Hcases as [[-> Hnone]|(s & -> & Hs & Hv & Hmin)].
  - left. split; [done|]. intros s Hv.
    destruct (decide (s < length states)%nat) as [Hlt|Hge].
    + apply (Hnone s); [lia|done].
    + destruct Hv as (st & _ & _ & Hst & _).
      apply lookup_lt_Some in Hst. lia.
  - right. exists s. split; [done|]. split; [lia|]. split; [done|]. split.
    + intros s' Hs'. apply Hmin. lia.
    + intros states2 policy2 natpolicy2 Hagree.
      apply (is_policy_correct_from_stops states policy natpolicy);
        [done|done|done|].
      destruct (Hagree s) as (Hst2 & _); [lia|].
      destruct Hv as (st & _ & _ & Hst & _).
      rewrite <- Hst2 in Hst. apply lookup_lt_Some in Hst. lia.
Qed.

End GRMDP_policy.

(** ** The reward vector *)

Section GRMDP_rewards.
Context {SType : Type} `{StateLaws SType}.

Lemma get_state_lookup (states : list SType) (s : nat) (st : SType) :
  states !! s = Some st → get_state states (Z.of_nat s) = Ok st.
Proof.
  intros Hst. unfold get_state, state_count.
  pose proof (lookup_lt_Some _ _ _ Hst) as Hlt.
  rewrite decide_True by lia. rewrite Nat2Z.id. by apply vec_get_Ok.
Qed.

(** A scan that ends with -1 has accepted the pair of every non-terminal
    state it went through. *)
Lemma is_policy_correct_from_accepts (states : list SType)
    (policy : ActionPolicy) (natpolicy : OutcomePolicy) (count si : nat) :
  is_policy_correct_from states policy natpolicy si count = Ok (-1) →
  ∀ s st, (si ≤ s < si + count)%nat → states !! s = Some st →
    is_terminal st = false →
    ∃ a o, policy !! s = Some a ∧ natpolicy !! s = Some o ∧
           is_action_outcome_correct st a o = true.
Proof.
  revert si. induction count as [|count IH]; intros si Hscan s st Hs Hst Hterm; [lia|].
  simpl in Hscan. apply bind_Ok in Hscan as (st0 & Hst0 & Hscan).
  apply vec_get_Ok in Hst0.
  destruct (decide (s = si)) as [->|Hne].
  - assert (st0 = st) as -> by congruence. rewrite Hterm in Hscan.
    apply bind_Ok in Hscan as (a & Ha & Hscan).
    apply bind_Ok in Hscan as (o & Ho & Hscan).
    apply vec_get_Ok in Ha. apply vec_get_Ok in Ho.
    exists a, o. split; [done|]. split; [done|].
    destruct (is_action_outcome_correct st a o); [done|].
    simpl in Hscan. injection Hscan as Hscan. lia.
  - assert (is_policy_correct_from states policy natpolicy (S si) count = Ok (-1))
      as Hnext.
    { destruct (is_terminal st0); [done|].
      apply bind_Ok in Hscan as (a & Ha & Hscan).
      apply bind_Ok in Hscan as (o & Ho & Hscan).
      destruct (is_action_outcome_correct st0 a o); [done|].
      simpl in Hscan. injection Hscan as Hscan. lia. }
    apply (IH (S si) Hnext s st); [lia|done..].
Qed.

(** C5. On a correct policy pair, [rewards_state] returns a vector with one
    entry per state; the entry of a terminal state is 0, the entry of any
    other state [s] is [mean_reward(policy[s], nature[s])] of that state. *)
Theorem rewards_state_entries (states : list SType)
    (policy : ActionPolicy) (nature : OutcomePolicy) :
  is_policy_correct states policy nature = Ok (-1) →
  ∃ rewards,
    rewards_state states policy nature = Ok rewards ∧
    length rewards = state_count states ∧
    ∀ s st, states !! s = Some st → reward_entry policy nature rewards s st.
Proof.
  intros Hcorrect. unfold rewards_state.
  set (n := state_count states).
  destruct (for_loop_total
    (λ i rewards, length rewards = n ∧
       ∀ s st, (s < i)%nat → states !! s = Some st →
         reward_entry policy nature rewards s st)
    (rewards_state_body states policy nature) n 0 (replicate n 0%Qc))
    as (rewards & Hloop & Hlen & Hentries).
  - split; [apply length_replicate|]. intros s st Hs. lia.
  - intros i rewards Hi [Hlen Hentries].
    destruct (lookup_lt_is_Some_2 states i) as [st Hst]; [unfold n, state_count in Hi; lia|].
    assert (∃ x, rewards_state_body states policy nature i rewards
                   = Ok (<[i := x]> rewards) ∧
                 reward_entry policy nature (<[i := x]> rewards) i st)
      as (x & Hbody & Hhere).
    { unfold rewards_state_body. rewrite (get_state_lookup _ _ _ Hst). simpl.
      destruct (is_terminal st) eqn:Hterm.
      - exists 0%Qc. unfold vec_set. rewrite decide_True by lia.
        split; [done|]. split; [|intros ?; congruence].
        intros _. apply list_lookup_insert_eq. lia.
      - destruct (is_policy_correct_from_accepts _ _ _ _ _ Hcorrect i st)
          as (a & o & Ha & Ho & Hok);
          [unfold n, state_count in Hi; lia|done|done|].
        destruct (correct_mean_reward st a o Hok) as [r Hr].
        exists r. unfold vec_get. rewrite Ha, Ho. simpl. rewrite Hr. simpl.
        unfold vec_set. rewrite decide_True by lia.
        split; [done|]. split; [intros ?; congruence|].
        intros _. exists a, o, r. split_and!; [done..|].
        apply list_lookup_insert_eq. lia. }
    exists (<[i := x]> rewards). split; [done|].
    split; [by rewrite length_insert|].
    intros s st' Hs Hst'.
    destruct (decide (s = i)) as [->|Hne]; [by simplify_eq|].
    destruct (Hentries s st') as [Hzero Hmean]; [lia|done|].
    split.
    + intros Hterm. rewrite list_lookup_insert_ne by done. by apply Hzero.
    + intros Hterm. destruct (Hmean Hterm) as (a & o & r & Ha & Ho & Hr & Hrw).
      exists a, o, r. split_and!; [done..|].
      by rewrite list_lookup_insert_ne by done.
  - exists rewards. split; [done|]. split; [done|].
    intros s st Hst. apply Hentries; [|done].
    apply lookup_lt_Some in Hst. unfold n, state_count. lia.
Qed.

End GRMDP_rewards.

(** ** Dense matrices *)

Lemma mat_get_zero_matrix (n m i j : nat) :
  mat_get (zero_matrix n m) i j =
    if decide (i < n ∧ j < m)%nat then Some 0%Qc else None.
Proof.
  unfold mat_get, zero_matrix.
  destruct (decide (i < n)%nat) as [Hi|Hi].
  - rewrite lookup_replicate_2 by done.
    destruct (decide (j < m)%nat) as [Hj|Hj].
    + rewrite lookup_replicate_2 by done. by rewrite decide_True.
    + rewrite decide_False by lia. apply lookup_replicate_None. lia.
  - rewrite decide_False by lia.
    by rewrite (proj1 (lookup_replicate_None n _ i)) by lia.
Qed.

(** A successful assignment had its cell inside the matrix, and changes
    that cell only. *)
Lemma mat_set_Ok (M M' : list (list Qc)) (i j : Z) (x : Qc) :
  mat_set M i j x = Ok M' →
  0 ≤ i ∧ 0 ≤ j ∧ is_Some (mat_get M (Z.to_nat i) (Z.to_nat j)) ∧
  ∀ i' j', mat_get M' i' j' =
    if decide ((Z.of_nat i', Z.of_nat j') = (i, j)) then Some x
    else mat_get M i' j'.
Proof.
  unfold mat_set. case_decide as Hnn; [|discriminate].
  destruct (M !! Z.to_nat i) as [row|] eqn:Hrow; [|discriminate].
  case_decide as Hj; [|discriminate]. intros [= <-].
  destruct Hnn as [Hi0 Hj0]. split; [done|]. split; [done|]. split.
  - unfold mat_get. rewrite Hrow. by apply lookup_lt_is_Some_2.
  - intros i' j'. unfold mat_get.
    pose proof (lookup_lt_Some _ _ _ Hrow) as Hi.
    destruct (decide (i' = Z.to_nat i)) as [->|Hne].
    + rewrite list_lookup_insert_eq by done. rewrite Hrow.
      destruct (decide (j' = Z.to_nat j)) as [->|Hnej].
      * rewrite list_lookup_insert_eq by done.
        rewrite decide_True; [done|]. f_equal; lia.
      * rewrite list_lookup_insert_ne by done.
        rewrite decide_False; [done|]. intros [= _ Heq]. lia.
    + rewrite list_lookup_insert_ne by done.
      rewrite decide_False; [done|]. intros [= Heq _]. lia.
Qed.

(** An assignment inside the matrix succeeds. *)
Lemma mat_set_in_range (M : list (list Qc)) (i j : nat) (x : Qc) :
  is_Some (mat_get M i j) →
  ∃ M', mat_set M (Z.of_nat i) (Z.of_nat j) x = Ok M'.
Proof.
  unfold mat_get, mat_set. intros Hin.
  rewrite decide_True by lia. rewrite !Nat2Z.id.
  destruct (M !! i) as [row|]; [|by destruct Hin].
  apply lookup_lt_is_Some_1 in Hin. rewrite decide_True by done. eauto.
Qed.

(** ** Filling a matrix from a resolved distribution *)

(** The inner loops of the two builders are instances of that shape. *)
Lemma fill_row_body_shape (s : nat) (t : list entry) :
  fill_row_body s t = fill_body (λ idx, (Z.of_nat s, idx)) t.
Proof. reflexivity. Qed.

Lemma fill_col_body_shape (s : nat) (t : list entry) :
  fill_col_body s t = fill_body (λ idx, (idx, Z.of_nat s)) t.
Proof. reflexivity. Qed.

Lemma last_hit_snoc (cell : Z → Z * Z) (t : list entry) (e : entry) (i j : nat) :
  last_hit cell (t ++ [e]) i j =
    if decide (cell (e_index e) = (Z.of_nat i, Z.of_nat j))
    then Some (e_prob e) else last_hit cell t i j.
Proof.
  unfold last_hit. rewrite filter_app, filter_cons, filter_nil.
  case_decide.
  - by rewrite last_snoc.
  - by rewrite app_nil_r.
Qed.

Lemma fill_body_loop (cell : Z → Z * Z) (t : list entry)
    (M M' : list (list Qc)) :
  for_loop 0 (t_size t) (fill_body cell t) M = Ok M' →
  cells_in cell M t ∧
  ∀ i j, mat_get M' i j =
    match last_hit cell t i j with
    | Some p => Some p
    | None => mat_get M i j
    end.
Proof.
  intros Hloop.
  pose proof (for_loop_inv
    (λ k Mk, cells_in cell M (take k t) ∧
       ∀ i j, mat_get Mk i j =
         match last_hit cell (take k t) i j with
         | Some p => Some p
         | None => mat_get M i j
         end)
    _ _ _ _ _ Hloop) as Hinv.
  simpl in Hinv. unfold t_size in Hinv. rewrite firstn_all in Hinv.
  apply Hinv; clear Hinv Hloop.
  - split; [intros e He; by apply elem_of_nil in He|done].
  - intros k Mk Mk' Hk [Hin Hget] Hbody.
    unfold fill_body in Hbody. res_inv.
    unfold get_indices in Ha. unfold get_probabilities in Ha0.
    rewrite list_lookup_fmap in Ha. rewrite list_lookup_fmap in Ha0.
    destruct (t !! k) as [e|] eqn:He; [|discriminate].
    simpl in Ha, Ha0. simplify_eq.
    rewrite (take_S_r _ _ _ He).
    apply mat_set_Ok in Hbody as (Hi0 & Hj0 & Hsome & Hset).
    assert (is_Some (mat_get M (Z.to_nat (cell (e_index e)).1)
                               (Z.to_nat (cell (e_index e)).2))) as HsomeM.
    { rewrite Hget in Hsome.
      destruct (last_hit cell (take k t) _ _) as [p|] eqn:Hhit; [|done].
      unfold last_hit in Hhit. apply fmap_Some in Hhit as (e' & Hlast & _).
      apply last_Some_elem_of, list_elem_of_filter in Hlast as [Hcell He'].
      destruct (Hin e' He') as (_ & _ & Hin').
      rewrite Hcell in Hin'. simpl in Hin'. by rewrite !Nat2Z.id in Hin'. }
    split.
    + intros e' He'. apply elem_of_app in He' as [He'|He']; [by apply Hin|].
      apply list_elem_of_singleton in He' as ->. done.
    + intros i j. rewrite Hset, last_hit_snoc, Hget.
      destruct (cell (e_index e)) as [ci cj] eqn:Hcell. simpl.
      destruct (decide ((Z.of_nat i, Z.of_nat j) = (ci, cj))) as [Heq|Hne].
      * by rewrite decide_True.
      * by rewrite decide_False by congruence.
Qed.

Lemma filter_none {A : Type} (P : A → Prop) `{∀ x, Decision (P x)}
    (l : list A) :
  (∀ x, x ∈ l → ¬ P x) → filter P l = [].
Proof.
  induction l as [|x l IH]; intros Hnone; [done|].
  rewrite filter_cons_False by (apply Hnone; left).
  apply IH. intros y Hy. apply Hnone. by right.
Qed.

Lemma last_hit_row (s : nat) (t : list entry) (i j : nat) :
  last_hit (λ idx, (Z.of_nat s, idx)) t i j =
    if decide (i = s) then last_prob t j else None.
Proof.
  unfold last_hit, last_prob. case_decide as Hi.
  - subst i. f_equal. f_equal. apply list_filter_iff. intros e. split.
    + by intros [= ->].
    + by intros ->.
  - rewrite filter_none; [done|]. intros e _ [= Heq _]. lia.
Qed.

Lemma last_hit_col (s : nat) (t : list entry) (i j : nat) :
  last_hit (λ idx, (idx, Z.of_nat s)) t i j =
    if decide (j = s) then last_prob t i else None.
Proof.
  unfold last_hit, last_prob. case_decide as Hj.
  - subst j. f_equal. f_equal. apply list_filter_iff. intros e. split.
    + by intros [= ->].
    + by intros ->.
  - rewrite filter_none; [done|]. intros e _ [= _ Heq]. lia.
Qed.

(** ** The transition matrices of a policy pair *)

Section GRMDP_matrices.
Context {SType : Type} `{StateType SType}.

Lemma transition_mat_rows (states : list SType)
    (policy : ActionPolicy) (nature : OutcomePolicy) (M : list (list Qc)) :
  transition_mat states policy nature = Ok M →
  square (length states) M ∧
  ∀ s, (s < length states)%nat →
    ∃ t, resolved states policy nature s = Some t ∧
         targets_below (length states) t ∧
         row_of (length states) M s t.
Proof.
  unfold transition_mat, state_count. set (n := length states).
  set (M0 := zero_matrix n n). intros Hloop.
  pose proof (for_loop_inv
    (λ i Mi,
       (∀ s, (s < i)%nat →
          ∃ t, resolved states policy nature s = Some t ∧
               targets_below n t ∧
               ∀ j, mat_get Mi s j =
                 match last_prob t j with
                 | Some p => Some p
                 | None => mat_get M0 s j
                 end) ∧
       (∀ s j, (i ≤ s)%nat → mat_get Mi s j = mat_get M0 s j))
    _ _ _ _ _ Hloop) as Hinv.
  simpl in Hinv. destruct Hinv as [Hrows _].
  - split; [intros s Hs; lia|done].
  - intros i Mi Mi' Hi [Hdone Hrest] Hbody.
    unfold transition_mat_body in Hbody.
    apply bind_Ok in Hbody as (st & Hst & Hbody).
    apply bind_Ok in Hbody as (a & Ha & Hbody).
    apply bind_Ok in Hbody as (o & Ho & Hbody).
    apply bind_Ok in Hbody as (t & Ht & Hbody).
    apply vec_get_Ok in Hst, Ha, Ho.
    rewrite fill_row_body_shape in Hbody.
    apply fill_body_loop in Hbody as [Hin Hfill].
    split.
    + intros s Hs. destruct (decide (s = i)) as [->|Hne].
      * exists t. split.
        { unfold resolved. rewrite Hst. simpl. rewrite Ha. simpl.
          rewrite Ho. simpl. by rewrite Ht. }
        split.
        { intros e He. destruct (Hin e He) as (_ & H0 & Hsome). simpl in *.
          rewrite Nat2Z.id, Hrest in Hsome by done.
          unfold M0 in Hsome. rewrite mat_get_zero_matrix in Hsome.
          case_decide; [lia|by destruct Hsome]. }
        intros j. rewrite Hfill, last_hit_row, decide_True by done.
        by rewrite Hrest.
      * destruct (Hdone s) as (t' & Hres & Hbelow & Hrow); [lia|].
        exists t'. split; [done|]. split; [done|].
        intros j. rewrite Hfill, last_hit_row, decide_False by done.
        apply Hrow.
    + intros s j Hs. rewrite Hfill, last_hit_row, decide_False by lia.
      apply Hrest. lia.
  - split.
    + intros i j. destruct (decide (i < n)%nat) as [Hi|Hi].
      * destruct (Hrows i Hi) as (t & _ & Hbelow & Hrow).
        rewrite Hrow. unfold M0. rewrite mat_get_zero_matrix.
        destruct (last_prob t j) as [p|] eqn:Hp.
        -- split; [|by eauto]. intros _. split; [done|].
           unfold last_prob in Hp. apply fmap_Some in Hp as (e & Hlast & _).
           apply last_Some_elem_of, list_elem_of_filter in Hlast as [Hidx He].
           apply Hbelow in He. lia.
        -- case_decide; split; intros Hsome; try done; try lia;
             by destruct Hsome.
      * pose proof (for_loop_inv
          (λ i Mi, ∀ s j, (n ≤ s)%nat → mat_get Mi s j = None)
          _ _ _ _ _ Hloop) as Hout.
        simpl in Hout. rewrite Hout.
        -- split; [by intros []|lia].
        -- intros s j' Hs. unfold M0. rewrite mat_get_zero_matrix.
           by rewrite decide_False by lia.
        -- intros i' Mi Mi' Hi' Hnone Hbody s j' Hs.
           unfold transition_mat_body in Hbody.
           apply bind_Ok in Hbody as (st & Hst & Hbody).
           apply bind_Ok in Hbody as (a & Ha & Hbody).
           apply bind_Ok in Hbody as (o & Ho & Hbody).
           apply bind_Ok in Hbody as (t & Ht & Hbody).
           rewrite fill_row_body_shape in Hbody.
           apply fill_body_loop in Hbody as [_ Hfill].
           rewrite Hfill, last_hit_row, decide_False by lia. by apply Hnone.
        -- lia.
    + intros s Hs. destruct (Hrows s Hs) as (t & Hres & Hbelow & Hrow).
      exists t. split; [done|]. split; [done|].
      intros j Hj. rewrite Hrow. unfold M0. rewrite mat_get_zero_matrix.
      rewrite decide_True by lia. by destruct (last_prob t j).
Qed.

Lemma transition_mat_t_cols (states : list SType)
    (policy : ActionPolicy) (nature : OutcomePolicy) (M : list (list Qc)) :
  transition_mat_t states policy nature = Ok M →
  square (length states) M ∧
  ∀ s st, states !! s = Some st →
    (is_terminal st = true →
       ∀ j, (j < length states)%nat → mat_get M j s = Some 0%Qc) ∧
    (is_terminal st = false →
       ∃ t, resolved states policy nature s = Some t ∧
            targets_below (length states) t ∧
            col_of (length states) M s t).
Proof.
  unfold transition_mat_t, state_count. set (n := length states).
  set (M0 := zero_matrix n n). intros Hloop.
  pose proof (for_loop_inv
    (λ i Mi,
       (∀ s st, (s < i)%nat → states !! s = Some st →
          (is_terminal st = true → ∀ j, mat_get Mi j s = mat_get M0 j s) ∧
          (is_terminal st = false →
             ∃ t, resolved states policy nature s = Some t ∧
                  targets_below n t ∧
                  ∀ j, mat_get Mi j s =
                    match last_prob t j with
                    | Some p => Some p
                    | None => mat_get M0 j s
                    end)) ∧
       (∀ s j, (i ≤ s)%nat → mat_get Mi j s = mat_get M0 j s))
    _ _ _ _ _ Hloop) as Hinv.
  simpl in Hinv. destruct Hinv as [Hcols Hrest].
  - split; [intros s st Hs; lia|done].
  - intros i Mi Mi' Hi [Hdone Hrest] Hbody.
    unfold transition_mat_t_body in Hbody.
    apply bind_Ok in Hbody as (st & Hst & Hbody). apply vec_get_Ok in Hst.
    destruct (is_terminal st) eqn:Hterm.
    + injection Hbody as <-. split; [|intros s j Hs; apply Hrest; lia].
      intros s st' Hs Hst'. destruct (decide (s = i)) as [->|Hne].
      * assert (st' = st) as -> by congruence.
        split; [|intros ?; congruence]. intros _ j. by apply Hrest.
      * apply Hdone; [lia|done].
    + apply bind_Ok in Hbody as (a & Ha & Hbody).
      apply bind_Ok in Hbody as (o & Ho & Hbody).
      apply bind_Ok in Hbody as (t & Ht & Hbody).
      apply vec_get_Ok in Ha, Ho.
      rewrite fill_col_body_shape in Hbody.
      apply fill_body_loop in Hbody as [Hin Hfill].
      split.
      * intros s st' Hs Hst'. destruct (decide (s = i)) as [->|Hne].
        -- assert (st' = st) as -> by congruence.
           split; [intros ?; congruence|]. intros _.
           exists t. split.
           { unfold resolved. rewrite Hst. simpl. rewrite Ha. simpl.
             rewrite Ho. simpl. by rewrite Ht. }
           split.
           { intros e He. destruct (Hin e He) as (H0 & _ & Hsome). simpl in *.
             rewrite Nat2Z.id, Hrest in Hsome by done.
             unfold M0 in Hsome. rewrite mat_get_zero_matrix in Hsome.
             case_decide; [lia|by destruct Hsome]. }
           intros j. rewrite Hfill, last_hit_col, decide_True by done.
           by rewrite Hrest.
        -- destruct (Hdone s st') as [Hzero Hcol]; [lia|done|].
           split.
           ++ intros Hterm' j.
              rewrite Hfill, last_hit_col, decide_False by done.
              by apply Hzero.
           ++ intros Hterm'.
              destruct (Hcol Hterm') as (t' & Hres & Hbelow & Hget).
              exists t'. split; [done|]. split; [done|].
              intros j. rewrite Hfill, last_hit_col, decide_False by done.
              apply Hget.
      * intros s j Hs. rewrite Hfill, last_hit_col, decide_False by lia.
        apply Hrest. lia.
  - assert (∀ s st t j, states !! s = Some st →
              targets_below n t → (j < n)%nat ∨ is_Some (last_prob t j) →
              match last_prob t j with
              | Some p => Some p
              | None => mat_get M0 j s
              end = Some (default 0%Qc (last_prob t j))) as Hentry.
    { intros s st t j Hst Hbelow Hj.
      apply lookup_lt_Some in Hst.
      destruct (last_prob t j) as [p|] eqn:Hp; [done|].
      destruct Hj as [Hj|[? [=]]].
      unfold M0. rewrite mat_get_zero_matrix. by rewrite decide_True by done. }
    split.
    + intros i j. destruct (decide (j < n)%nat) as [Hj|Hj].
      * destruct (lookup_lt_is_Some_2 states j Hj) as [st Hst].
        destruct (Hcols j st Hj Hst) as [Hzero Hcol].
        destruct (is_terminal st) eqn:Hterm.
        -- rewrite Hzero by done. unfold M0. rewrite mat_get_zero_matrix.
           case_decide; split; intros Hsome; try done; try lia;
             by destruct Hsome.
        -- destruct (Hcol eq_refl) as (t & _ & Hbelow & Hget).
           rewrite Hget. unfold M0. rewrite mat_get_zero_matrix.
           destruct (last_prob t i) as [p|] eqn:Hp.
           ++ split; [|by eauto]. intros _. split; [|done].
              unfold last_prob in Hp. apply fmap_Some in Hp as (e & Hlast & _).
              apply last_Some_elem_of, list_elem_of_filter in Hlast as [Hidx He].
              apply Hbelow in He. lia.
           ++ case_decide; split; intros Hsome; try done; try lia;
                by destruct Hsome.
      * rewrite Hrest by lia. unfold M0. rewrite mat_get_zero_matrix.
        rewrite decide_False by lia. split; [by intros []|lia].
    + intros s st Hst. pose proof (lookup_lt_Some _ _ _ Hst) as Hs.
      destruct (Hcols s st Hs Hst) as [Hzero Hcol]. split.
      * intros Hterm j Hj. rewrite Hzero by done.
        unfold M0. rewrite mat_get_zero_matrix. by rewrite decide_True by done.
      * intros Hterm. destruct (Hcol Hterm) as (t & Hres & Hbelow & Hget).
        exists t. split; [done|]. split; [done|].
        intros j Hj. rewrite Hget. by apply (Hentry s st); [..|left].
Qed.

(** *** The builders end on resolvable states with targets in the table *)

Lemma square_zero_matrix (n : nat) : square n (zero_matrix n n).
Proof.
  intros i j. rewrite mat_get_zero_matrix.
  case_decide; split; intros Hsome; try done; try lia; by destruct Hsome.
Qed.

Lemma fill_body_total (cell : Z → Z * Z) (t : list entry)
    (n : nat) (M : list (list Qc)) :
  square n M →
  (∀ e, e ∈ t → 0 ≤ (cell (e_index e)).1 < Z.of_nat n ∧
                 0 ≤ (cell (e_index e)).2 < Z.of_nat n) →
  ∃ M', for_loop 0 (t_size t) (fill_body cell t) M = Ok M' ∧ square n M'.
Proof.
  intros Hsq Hcells.
  apply (for_loop_total (λ _ Mk, square n Mk)); [done|].
  intros k Mk Hk Hsqk. unfold t_size in Hk.
  destruct (lookup_lt_is_Some_2 t k) as [e He]; [lia|].
  destruct (Hcells e) as [Hi Hj]; [by eapply list_elem_of_lookup_2|].
  destruct (mat_set_in_range Mk (Z.to_nat (cell (e_index e)).1)
              (Z.to_nat (cell (e_index e)).2) (e_prob e)) as [Mk' Hset].
  { apply Hsqk. lia. }
  rewrite !Z2Nat.id in Hset by lia.
  exists Mk'. split.
  - unfold fill_body, get_indices, get_probabilities, vec_get.
    rewrite !list_lookup_fmap, He. simpl. done.
  - apply mat_set_Ok in Hset as (_ & _ & Hsome & Hget).
    intros i j. rewrite Hget. case_decide as Heq; [|apply Hsqk].
    split; [|by eauto]. intros _. apply Hsqk.
    injection Heq as Hi' Hj'. rewrite <- Hi', <- Hj' in Hsome.
    by rewrite !Nat2Z.id in Hsome.
Qed.

Lemma resolved_Some (states : list SType)
    (policy : ActionPolicy) (nature : OutcomePolicy) (s : nat) (t : list entry) :
  resolved states policy nature s = Some t ↔
  ∃ st a o, states !! s = Some st ∧ policy !! s = Some a ∧
            nature !! s = Some o ∧ mean_transition st a o = Ok t.
Proof.
  unfold resolved. split.
  - intros Hres.
    destruct (states !! s) as [st|]; [|done].
    destruct (policy !! s) as [a|]; [|done].
    destruct (nature !! s) as [o|]; [|done]. simpl in Hres.
    destruct (mean_transition st a o) as [t'|] eqn:Ht; [|done].
    injection Hres as ->. by exists st, a, o.
  - intros (st & a & o & -> & -> & -> & Ht). simpl. by rewrite Ht.
Qed.

Lemma transition_mat_total (states : list SType)
    (policy : ActionPolicy) (nature : OutcomePolicy) :
  (∀ s, (s < length states)%nat →
     ∃ t, resolved states policy nature s = Some t ∧
          targets_below (length states) t) →
  ∃ M, transition_mat states policy nature = Ok M.
Proof.
  intros Hres. unfold transition_mat, state_count. set (n := length states).
  destruct (for_loop_total (λ _ Mi, square n Mi)
    (transition_mat_body states policy nature) n 0 (zero_matrix n n))
    as (M & HM & _); [apply square_zero_matrix| |by exists M].
  intros i Mi Hi Hsq.
  destruct (Hres i) as (t & Ht & Hbelow); [lia|].
  apply resolved_Some in Ht as (st & a & o & Hst & Ha & Ho & Ht).
  unfold transition_mat_body, vec_get. rewrite Hst, Ha, Ho. simpl.
  rewrite Ht. simpl. rewrite fill_row_body_shape.
  apply fill_body_total; [done|].
  intros e He. simpl. split; [lia|by apply Hbelow].
Qed.

Lemma transition_mat_t_total (states : list SType)
    (policy : ActionPolicy) (nature : OutcomePolicy) :
  (∀ s st, states !! s = Some st → is_terminal st = false →
     ∃ t, resolved states policy nature s = Some t ∧
          targets_below (length states) t) →
  ∃ M, transition_mat_t states policy nature = Ok M.
Proof.
  intros Hres. unfold transition_mat_t, state_count. set (n := length states).
  destruct (for_loop_total (λ _ Mi, square n Mi)
    (transition_mat_t_body states policy nature) n 0 (zero_matrix n n))
    as (M & HM & _); [apply square_zero_matrix| |by exists M].
  intros i Mi Hi Hsq.
  destruct (lookup_lt_is_Some_2 states i) as [st Hst]; [lia|].
  unfold transition_mat_t_body, vec_get. rewrite Hst. simpl.
  destruct (is_terminal st) eqn:Hterm; [by exists Mi|].
  destruct (Hres i st Hst Hterm) as (t & Ht & Hbelow).
  apply resolved_Some in Ht as (st' & a & o & Hst' & Ha & Ho & Ht).
  assert (st' = st) as -> by congruence.
  rewrite Ha, Ho. simpl. rewrite Ht. simpl. rewrite fill_col_body_shape.
  apply fill_body_total; [done|].
  intros e He. simpl. split; [by apply Hbelow|lia].
Qed.

Lemma last_prob_last_occurrence (l1 l2 : list entry) (e : entry) (j : nat) :
  e_index e = Z.of_nat j →
  e_index e ∉ get_indices l2 →
  last_prob (l1 ++ e :: l2) j = Some (e_prob e).
Proof.
  intros Hj Hlast. unfold last_prob.
  rewrite filter_app, filter_cons_True by done.
  rewrite (filter_none _ l2).
  - by rewrite last_snoc.
  - intros e' He' Hidx. apply Hlast. unfold get_indices.
    rewrite Hj, <- Hidx. by apply list_elem_of_fmap_2.
Qed.

End GRMDP_matrices.

Section GRMDP_matrix_claims.
Context {SType : Type} `{StateLaws SType}.

(** A state that resolves to a distribution is not terminal. *)
Lemma resolved_not_terminal (states : list SType)
    (policy : ActionPolicy) (nature : OutcomePolicy)
    (s : nat) (st : SType) (t : list entry) :
  resolved states policy nature s = Some t →
  states !! s = Some st → is_terminal st = false.
Proof.
  intros (st' & a & o & Hst' & _ & _ & Ht)%resolved_Some Hst.
  assert (st' = st) as -> by congruence.
  destruct (is_terminal st) eqn:Hterm; [|done].
  by destruct (terminal_unresolved st a o t Hterm).
Qed.

(** C1. Whenever both builders return a matrix for a table and a policy
    pair, the matrix of [transition_mat_t] is the transpose of the matrix of
    [transition_mat]: entry (s', s) of the first is entry (s, s') of the
    second, for all s and s'. *)
Theorem transition_mat_t_is_transpose (states : list SType)
    (policy : ActionPolicy) (nature : OutcomePolicy) (M Mt : list (list Qc)) :
  transition_mat states policy nature = Ok M →
  transition_mat_t states policy nature = Ok Mt →
  ∀ s s', mat_get Mt s' s = mat_get M s s' ∧
          ((s < state_count states ∧ s' < state_count states)%nat →
           is_Some (mat_get M s s')).
Proof.
  intros [Hsq Hrows]%transition_mat_rows [Hsqt Hcols]%transition_mat_t_cols s s'.
  unfold state_count.
  destruct (decide (s < length states ∧ s' < length states)%nat) as [[Hs Hs']|Hout].
  - destruct (Hrows s Hs) as (t & Hres & _ & Hrow).
    destruct (lookup_lt_is_Some_2 states s Hs) as [st Hst].
    destruct (Hcols s st Hst) as [_ Hcol].
    destruct Hcol as (t' & Hres' & _ & Hcol);
      [by eapply resolved_not_terminal|].
    assert (t' = t) as -> by congruence.
    rewrite Hrow, Hcol by done. split; [done|by eauto].
  - split; [|intros ?; lia].
    destruct (mat_get Mt s' s) as [x|] eqn:Hx.
    { assert (is_Some (mat_get Mt s' s)) as Hsome by (by rewrite Hx).
      apply Hsqt in Hsome. lia. }
    destruct (mat_get M s s') as [y|] eqn:Hy; [|done].
    assert (is_Some (mat_get M s s')) as Hsome by (by rewrite Hy).
    apply Hsq in Hsome. lia.
Qed.

(** C10. The builders assign, they do not accumulate. Let the distribution
    resolved for state [s] list a target several times, [e] being the last
    entry listed for it. Whenever every state resolves to a distribution
    whose targets are states of the table, [transition_mat] returns a
    matrix, and the entry of that target in row [s] is the probability of
    [e]; whenever this holds of every state that is not terminal,
    [transition_mat_t] returns a matrix, and the entry of that target in
    column [s] is the probability of [e]. Entries listed before [e] for the
    same target leave no trace. *)
Theorem last_occurrence_wins (states : list SType)
    (policy : ActionPolicy) (nature : OutcomePolicy)
    (s : nat) (l1 l2 : list entry) (e : entry) :
  resolved states policy nature s = Some (l1 ++ e :: l2) →
  e_index e ∉ get_indices l2 →
  ((∀ s', (s' < length states)%nat →
      ∃ t, resolved states policy nature s' = Some t ∧
           targets_below (length states) t) →
   ∃ M, transition_mat states policy nature = Ok M ∧
        mat_get M s (Z.to_nat (e_index e)) = Some (e_prob e)) ∧
  ((∀ s' st, states !! s' = Some st → is_terminal st = false →
      ∃ t, resolved states policy nature s' = Some t ∧
           targets_below (length states) t) →
   ∃ Mt, transition_mat_t states policy nature = Ok Mt ∧
         mat_get Mt (Z.to_nat (e_index e)) s = Some (e_prob e)).
Proof.
  intros Hres Hlast.
  assert (s < length states)%nat as Hs.
  { apply resolved_Some in Hres as (st & _ & _ & Hst & _).
    by apply lookup_lt_Some in Hst. }
  assert (∀ t, resolved states policy nature s = Some t →
               targets_below (length states) t →
               (Z.to_nat (e_index e) < length states)%nat ∧
               default 0%Qc (last_prob t (Z.to_nat (e_index e))) = e_prob e)
    as Hentry.
  { intros t Ht Hbelow. assert (t = l1 ++ e :: l2) as -> by congruence.
    destruct (Hbelow e) as [Hge Hlt]; [apply elem_of_app; right; left|].
    split; [lia|].
    rewrite last_prob_last_occurrence; [done| |done].
    by rewrite Z2Nat.id. }
  split.
  - intros Hall.
    destruct (transition_mat_total states policy nature Hall) as [M HM].
    exists M. split; [done|].
    apply transition_mat_rows in HM as [_ Hrows].
    destruct (Hrows s Hs) as (t & Ht & Hbelow & Hrow).
    destruct (Hentry t Ht Hbelow) as [Hj Hp]. by rewrite Hrow, Hp.
  - intros Hall.
    destruct (transition_mat_t_total states policy nature Hall) as [Mt HMt].
    exists Mt. split; [done|].
    apply transition_mat_t_cols in HMt as [_ Hcols].
    destruct (lookup_lt_is_Some_2 states s Hs) as [st Hst].
    destruct (Hcols s st Hst) as [_ Hcol].
    destruct Hcol as (t & Ht & Hbelow & Hcol);
      [by eapply resolved_not_terminal|].
    destruct (Hentry t Ht Hbelow) as [Hj Hp]. by rewrite Hcol, Hp.
Qed.

(** The forward builder resolves a transition on every state, the terminal
    ones included: it returns no matrix for a table that holds a terminal
    state. *)
Lemma transition_mat_terminal_undefined (states : list SType)
    (policy : ActionPolicy) (nature : OutcomePolicy)
    (s : nat) (st : SType) (M : list (list Qc)) :
  states !! s = Some st → is_terminal st = true →
  transition_mat states policy nature ≠ Ok M.
Proof.
  intros Hst Hterm [_ Hrows]%transition_mat_rows.
  destruct (Hrows s) as (t & Hres & _); [by eapply lookup_lt_Some|].
  pose proof (resolved_not_terminal _ _ _ _ _ _ Hres Hst). congruence.
Qed.

End GRMDP_matrix_claims.

(** ** Row sums *)

#[local] Arguments vec_sum : simpl never.

Lemma vec_sum_cons (x : Qc) (v : list Qc) :
  vec_sum (x :: v) = (x + vec_sum v)%Qc.
Proof. done. Qed.

Lemma vec_sum_pointwise {A : Type} (f g : A → Qc) (l : list A) :
  vec_sum (map (λ j, (f j + g j)%Qc) l) =
    (vec_sum (map f l) + vec_sum (map g l))%Qc.
Proof.
  induction l as [|x l IH]; simpl.
  - unfold vec_sum. simpl. ring.
  - rewrite !vec_sum_cons, IH. ring.
Qed.

Lemma vec_sum_ext {A : Type} (f g : A → Qc) (l : list A) :
  (∀ x, x ∈ l → f x = g x) → vec_sum (map f l) = vec_sum (map g l).
Proof.
  induction l as [|x l IH]; intros Hext; [done|]. simpl.
  rewrite !vec_sum_cons, (Hext x) by left. f_equal.
  apply IH. intros y Hy. apply Hext. by right.
Qed.

Lemma vec_sum_zeros {A : Type} (l : list A) :
  vec_sum (map (λ _, 0%Qc) l) = 0%Qc.
Proof.
  induction l as [|x l IH]; [done|]. simpl. rewrite vec_sum_cons, IH. ring.
Qed.

(** Summing, over the ids from [start] on, the vector that holds [x] at
    position [k] and 0 elsewhere. *)
Lemma vec_sum_indicator (k : Z) (x : Qc) (len start : nat) :
  vec_sum (map (λ j, if decide (k = Z.of_nat j) then x else 0%Qc)
               (seq start len)) =
    if decide (Z.of_nat start ≤ k < Z.of_nat (start + len)) then x else 0%Qc.
Proof.
  revert start. induction len as [|len IH]; intros start; simpl.
  - by rewrite decide_False by lia.
  - rewrite vec_sum_cons, IH.
    destruct (decide (k = Z.of_nat start)) as [->|Hne].
    + rewrite decide_False by lia. rewrite decide_True by lia. ring.
    + destruct (decide (Z.of_nat (S start) ≤ k < Z.of_nat (S start + len))).
      * rewrite decide_True by lia. ring.
      * rewrite decide_False by lia. ring.
Qed.

Lemma last_prob_nil (j : nat) : last_prob [] j = None.
Proof. done. Qed.

Lemma last_prob_cons (e : entry) (t : list entry) (j : nat) :
  last_prob (e :: t) j =
    match last_prob t j with
    | Some p => Some p
    | None => if decide (e_index e = Z.of_nat j) then Some (e_prob e) else None
    end.
Proof.
  unfold last_prob. rewrite filter_cons. case_decide.
  - rewrite last_cons. by destruct (list.last _).
  - by destruct (list.last _).
Qed.

Lemma last_prob_not_listed (t : list entry) (j : nat) :
  Z.of_nat j ∉ get_indices t → last_prob t j = None.
Proof.
  intros Hnot. unfold last_prob. rewrite filter_none; [done|].
  intros e He Hidx. apply Hnot. unfold get_indices. rewrite <- Hidx.
  by apply list_elem_of_fmap_2.
Qed.

(** When no target is listed twice, the entries the builder writes for one
    state add up to the total probability mass of its distribution. *)
Lemma row_sum_distinct_targets (n : nat) (t : list entry) :
  (∀ e, e ∈ t → 0 ≤ e_index e < Z.of_nat n) →
  NoDup (get_indices t) →
  vec_sum (map (λ j, default 0%Qc (last_prob t j)) (seq 0 n)) =
    sum_probabilities t.
Proof.
  induction t as [|e t IH]; intros Hbelow Hnodup.
  - rewrite (vec_sum_ext _ (λ _, 0%Qc)) by done. apply vec_sum_zeros.
  - unfold get_indices in Hnodup. simpl in Hnodup.
    apply NoDup_cons in Hnodup as [Hfresh Hnodup].
    unfold sum_probabilities, get_probabilities. simpl. rewrite vec_sum_cons.
    fold (get_probabilities t). fold (sum_probabilities t).
    rewrite <- IH; [|intros e' He'; apply Hbelow; by right|done].
    rewrite (vec_sum_ext _
      (λ j, ((if decide (e_index e = Z.of_nat j) then e_prob e else 0) +
             default 0 (last_prob t j))%Qc)).
    + rewrite vec_sum_pointwise. f_equal.
      rewrite (vec_sum_indicator (e_index e) (e_prob e) n 0).
      destruct (Hbelow e) as [Hge Hlt]; [by left|].
      by rewrite decide_True by lia.
    + intros j _. rewrite last_prob_cons.
      case_decide as Hj.
      * rewrite last_prob_not_listed by (by rewrite <- Hj). simpl. ring.
      * destruct (last_prob t j); simpl; ring.
Qed.

Section GRMDP_row_sums.
Context {SType : Type} `{StateLaws SType}.

(** Row [s] of a square matrix, read entry by entry. *)
Lemma square_row (n : nat) (M : list (list Qc)) (s : nat) :
  square n M → (s < n)%nat →
  ∃ row, M !! s = Some row ∧ length row = n ∧
         ∀ j, row !! j = mat_get M s j.
Proof.
  intros Hsq Hs.
  destruct (M !! s) as [row|] eqn:Hrow.
  - exists row. split; [done|]. split.
    + destruct (decide (length row = n)) as [|Hne]; [done|exfalso].
      destruct (decide (length row < n)%nat) as [Hlt|Hge].
      * destruct (proj2 (Hsq s (length row))) as [x Hx]; [lia|].
        unfold mat_get in Hx. rewrite Hrow in Hx.
        apply lookup_lt_Some in Hx. lia.
      * destruct (lookup_lt_is_Some_2 row n) as [x Hx]; [lia|].
        assert (is_Some (mat_get M s n)) as Hsome.
        { unfold mat_get. rewrite Hrow. by eauto. }
        apply Hsq in Hsome. lia.
    + intros j. unfold mat_get. by rewrite Hrow.
  - destruct (proj2 (Hsq s s)) as [x Hx]; [lia|].
    unfold mat_get in Hx. by rewrite Hrow in Hx.
Qed.

(** C4, as the code has it. On a table without terminal states and a
    correct policy pair whose resolved distributions target states of the
    table, [transition_mat] returns a matrix; the row of every state whose
    distribution lists no target twice sums to the total probability mass of
    that distribution, hence to 1 when the distribution is normalized. *)
Theorem transition_mat_row_sums (states : list SType)
    (policy : ActionPolicy) (nature : OutcomePolicy) :
  is_policy_correct states policy nature = Ok (-1) →
  (∀ s st, states !! s = Some st → is_terminal st = false) →
  (∀ s t, resolved states policy nature s = Some t →
     targets_below (length states) t) →
  ∃ M, transition_mat states policy nature = Ok M ∧
    ∀ s, (s < state_count states)%nat →
      ∃ t row,
        resolved states policy nature s = Some t ∧
        M !! s = Some row ∧
        (NoDup (get_indices t) →
           vec_sum row = sum_probabilities t ∧
           (t_is_normalized t = true → vec_sum row = 1%Qc)).
Proof.
  intros Hcorrect Hnonterm Htargets.
  destruct (transition_mat_total states policy nature) as [M HM].
  { intros s Hs.
    destruct (lookup_lt_is_Some_2 states s Hs) as [st Hst].
    destruct (is_policy_correct_from_accepts _ _ _ _ _ Hcorrect s st)
      as (a & o & Ha & Ho & Hok); [lia|done|by eapply Hnonterm|].
    destruct (correct_mean_transition st a o Hok) as [t Ht].
    assert (resolved states policy nature s = Some t) as Hres.
    { apply resolved_Some. by exists st, a, o. }
    exists t. split; [done|]. by apply (Htargets s). }
  exists M. split; [done|].
  apply transition_mat_rows in HM as [Hsq Hrows].
  intros s Hs. unfold state_count in Hs.
  destruct (Hrows s Hs) as (t & Hres & Hbelow & Hrow).
  destruct (square_row _ _ _ Hsq Hs) as (row & HMs & Hlen & Hget).
  exists t, row. split; [done|]. split; [done|].
  intros Hnodup.
  assert (vec_sum row = sum_probabilities t) as Hsum.
  { rewrite <- (row_sum_distinct_targets (length states)) by done.
    f_equal. apply list_eq. intros j.
    rewrite Hget. change (map ?f ?l) with (f <$> l).
    rewrite list_lookup_fmap.
    destruct (decide (j < length states)%nat) as [Hj|Hj].
    - rewrite Hrow by done. rewrite lookup_seq_lt by done. done.
    - rewrite lookup_seq_ge by lia. simpl.
      destruct (mat_get M s j) as [x|] eqn:Hx; [|done].
      assert (is_Some (mat_get M s j)) as Hsome by (by rewrite Hx).
      apply Hsq in Hsome. lia. }
  split; [done|].
  intros Hnorm. rewrite Hsum. unfold t_is_normalized in Hnorm.
  by apply bool_decide_eq_true in Hnorm.
Qed.

End GRMDP_row_sums.

(** ** The indexed state satisfies the laws of the interface *)

Lemma at_id_nil {A : Type} (id : Z) : at_id ([] : list A) id = None.
Proof. unfold at_id. by case_decide. Qed.

#[export] Instance State_StateLaws : StateLaws State.
Proof.
  split.
  - intros s. simpl. unfold State_is_terminal.
    destruct (actions s); split; intros Heq; done.
  - done.
  - intros s a o t Hterm. simpl in *. unfold State_is_terminal in Hterm.
    unfold resolve. destruct (actions s); [|done]. by rewrite at_id_nil.
  - intros s a o. simpl. unfold State_is_action_outcome_correct.
    unfold State_mean_reward, resolve.
    destruct (at_id (actions s) a) as [act|]; [|done].
    destruct (at_id (outcomes act) o) as [t|]; [|done].
    intros _. simpl. eauto.
  - intros s a o. simpl. unfold State_is_action_outcome_correct, resolve.
    destruct (at_id (actions s) a) as [act|]; [|done].
    destruct (at_id (outcomes act) o) as [t|]; [|done].
    intros _. eauto.
Qed.

(** ** Normalization *)

(** Rewriting every element with [f] twice gives what rewriting it once
    gives, as soon as this is so for each element. *)
Lemma res_map_idempotent {A : Type} (f : A → res A) (P Q : A → Prop)
    (l : list A) :
  (∀ x, P x → ∃ y, f x = Ok y ∧ f y = Ok y ∧ Q y) →
  (∀ x, x ∈ l → P x) →
  ∃ l', res_map f l = Ok l' ∧ res_map f l' = Ok l' ∧ ∀ y, y ∈ l' → Q y.
Proof.
  intros Hf. induction l as [|x l IH]; intros HP.
  - exists []. split; [done|]. split; [done|]. intros y Hy.
    by apply elem_of_nil in Hy.
  - destruct (Hf x) as (y & Hy & Hyy & HQ); [apply HP; left|].
    destruct IH as (l' & Hl & Hll & HQl); [intros z Hz; apply HP; by right|].
    exists (y :: l'). simpl. rewrite Hy, Hyy. simpl. rewrite Hl, Hll. simpl.
    split; [done|]. split; [done|].
    intros z Hz. apply elem_of_cons in Hz as [->|Hz]; [done|by apply HQl].
Qed.

Lemma sum_probabilities_scaled (t : list entry) (c : Qc) :
  sum_probabilities
    (map (λ e, mk_entry (e_index e) (e_prob e / c)%Qc (e_reward e)) t) =
  (sum_probabilities t / c)%Qc.
Proof.
  unfold sum_probabilities, get_probabilities.
  induction t as [|e t IH]; simpl.
  - unfold vec_sum, Qcdiv. simpl. ring.
  - rewrite !vec_sum_cons, IH. unfold Qcdiv. ring.
Qed.

(** Normalizing an outcome of nonzero weight gives a normalized outcome. *)
Lemma t_normalize_normalizes (t : list entry) :
  sum_probabilities t ≠ 0%Qc →
  ∃ t', t_normalize t = Ok t' ∧ sum_probabilities t' = 1%Qc.
Proof.
  intros Hnz. unfold t_normalize. rewrite decide_False by done.
  eexists. split; [done|].
  rewrite sum_probabilities_scaled. unfold Qcdiv.
  by apply Qcmult_inv_r.
Qed.

Lemma scale_by_one (t : list entry) :
  map (λ e, mk_entry (e_index e) (e_prob e / 1)%Qc (e_reward e)) t = t.
Proof.
  induction t as [|[idx p r] t IH]; [done|]. simpl. rewrite IH.
  f_equal. f_equal. unfold Qcdiv. change (/ 1)%Qc with 1%Qc. ring.
Qed.

(** Normalizing a normalized outcome changes nothing. *)
Lemma t_normalize_fixed (t : list entry) :
  sum_probabilities t = 1%Qc → t_normalize t = Ok t.
Proof.
  intros Hone. unfold t_normalize. rewrite Hone.
  rewrite decide_False by done. by rewrite scale_by_one.
Qed.

Lemma t_normalize_idempotent (t : list entry) :
  sum_probabilities t ≠ 0%Qc →
  ∃ t', t_normalize t = Ok t' ∧ t_normalize t' = Ok t' ∧
        t_is_normalized t' = true.
Proof.
  intros Hnz. destruct (t_normalize_normalizes t Hnz) as (t' & Ht & Hone).
  exists t'. split; [done|]. split; [by apply t_normalize_fixed|].
  unfold t_is_normalized. by apply bool_decide_eq_true.
Qed.

Lemma forallb_elem_of {A : Type} (f : A → bool) (l : list A) :
  (∀ x, x ∈ l → f x = true) → forallb f l = true.
Proof.
  intros Hall. induction l as [|x l IH]; [done|]. simpl.
  rewrite (Hall x) by left. simpl. apply IH. intros y Hy. apply Hall. by right.
Qed.

Lemma Action_normalize_idempotent (act : Action) :
  (∀ t, t ∈ outcomes act → sum_probabilities t ≠ 0%Qc) →
  ∃ act', Action_normalize act = Ok act' ∧ Action_normalize act' = Ok act' ∧
          forallb t_is_normalized (outcomes act') = true.
Proof.
  intros Hnz.
  destruct (res_map_idempotent t_normalize
              (λ t, sum_probabilities t ≠ 0%Qc)
              (λ t, t_is_normalized t = true) (outcomes act))
    as (ts & Hts & Htts & Hnorm); [apply t_normalize_idempotent|done|].
  exists (mk_action ts). unfold Action_normalize. simpl.
  rewrite Hts, Htts. simpl. split; [done|]. split; [done|].
  by apply forallb_elem_of.
Qed.

Lemma State_normalize_idempotent (s : State) :
  (∀ a t, a ∈ actions s → t ∈ outcomes a → sum_probabilities t ≠ 0%Qc) →
  ∃ s', State_normalize s = Ok s' ∧ State_normalize s' = Ok s' ∧
        forallb (λ a, forallb t_is_normalized (outcomes a)) (actions s') = true.
Proof.
  intros Hnz.
  destruct (res_map_idempotent Action_normalize
              (λ a, ∀ t, t ∈ outcomes a → sum_probabilities t ≠ 0%Qc)
              (λ a, forallb t_is_normalized (outcomes a) = true) (actions s))
    as (acts & Hacts & Haacts & Hnorm);
    [apply Action_normalize_idempotent|intros a Ha t; by apply Hnz|].
  exists (mk_state acts). unfold State_normalize. simpl.
  rewrite Hacts, Haacts. simpl. split; [done|]. split; [done|].
  by apply forallb_elem_of.
Qed.

(** C9. On a table in which every outcome has a nonzero total probability
    weight, [normalize] returns a table, normalizing that table again
    returns it unchanged, and [is_normalized] holds of it. *)
Theorem normalize_idempotent (states : list State) :
  nonzero_weights states →
  ∃ states',
    normalize states = Ok states' ∧
    normalize states' = Ok states' ∧
    is_normalized states' = true.
Proof.
  intros Hnz. unfold normalize, is_normalized. simpl.
  destruct (res_map_idempotent State_normalize
    (λ s, ∀ a t, a ∈ actions s → t ∈ outcomes a → sum_probabilities t ≠ 0%Qc)
    (λ s, forallb (λ a, forallb t_is_normalized (outcomes a)) (actions s) = true)
    states)
    as (states' & Hs & Hss & Hnorm);
    [apply State_normalize_idempotent|intros s Hs a t; by apply Hnz|].
  exists states'. split; [done|]. split; [done|].
  by apply forallb_elem_of.
Qed.

(** ** The properties on concrete models *)

(** P6 of the spec: the pair [0,0,0] / [0,0,0] is valid on the three-state
    model; with action 5 at state 0 the validator returns state 0. *)
Example mdp3_policy_valid :
  is_policy_correct mdp3 [0; 0; 0] [0; 0; 0] = Ok (-1).
Proof. reflexivity. Qed.

Example mdp3_policy_invalid :
  is_policy_correct mdp3 [5; 0; 0] [0; 0; 0] = Ok 0.
Proof. reflexivity. Qed.

(** P4 of the spec: a single terminal state has the reward vector [0]; a
    state with one transition to itself of probability 1 and reward [r] has
    the reward vector [r]. *)
Example rewards_terminal :
  rewards_state [mk_state []] [] [] = Ok [0%Qc].
Proof. reflexivity. Qed.

Example rewards_self_loop (r : Qc) :
  rewards_state [mk_state [single 0 1%Qc r]] [0] [0] = Ok [r].
Proof.
  unfold rewards_state, rewards_state_body. simpl.
  unfold State_mean_reward, t_mean_reward, vec_sum. simpl.
  do 2 f_equal. ring.
Qed.

(** The two matrices of the three-state model under action 1. *)
Example mdp3_transition_mat :
  transition_mat mdp3 [1; 1; 1] [0; 0; 0] =
    Ok [[0; 1; 0]; [0; 0; 1]; [0; 0; 1]]%Qc.
Proof. vm_compute. reflexivity. Qed.

Example mdp3_transition_mat_t :
  transition_mat_t mdp3 [1; 1; 1] [0; 0; 0] =
    Ok [[0; 0; 0]; [1; 0; 0]; [0; 1; 1]]%Qc.
Proof. vm_compute. reflexivity. Qed.

(** C7 on the three-state model, creating state 5. *)
Lemma create_state_grows_witness :
  0 ≤ 5 ∧
  ∃ states' st,
    create_state mdp3 5 = Ok (states', st) ∧
    state_count states' = Nat.max (state_count mdp3) (Z.to_nat 5 + 1) ∧
    (∀ i s, mdp3 !! i = Some s → states' !! i = Some s) ∧
    (∀ i, (state_count mdp3 ≤ i < state_count states')%nat →
       states' !! i = Some state_default) ∧
    is_terminal (state_default : State) = true ∧
    get_actions (state_default : State) = [] ∧
    states' !! Z.to_nat 5 = Some st.
Proof. split; [lia|]. apply (create_state_grows mdp3 5). lia. Defined.

(** C8 on the three-state model, with the ids 7, -1 and 1. *)
Lemma get_state_checked_witness :
  get_state mdp3 7 = Err AssertionFailed ∧
  get_state mdp3 (-1) = Err AssertionFailed ∧
  ∃ st, mdp3 !! Z.to_nat 1 = Some st ∧ get_state mdp3 1 = Ok st.
Proof.
  split; [|split].
  - apply (get_state_checked mdp3 7). right. simpl. lia.
  - apply (get_state_checked mdp3 (-1)). left. lia.
  - apply (get_state_checked mdp3 1). simpl. lia.
Defined.

(** C6 on the three-state model, with the unknown action 5 at state 0. *)
Lemma is_policy_correct_first_violation_witness :
  (length mdp3 ≤ length [5; 0; 0])%nat ∧
  (length mdp3 ≤ length [0; 0; 0])%nat ∧
  ∃ r, is_policy_correct mdp3 [5; 0; 0] [0; 0; 0] = Ok r ∧
    ((r = -1 ∧ ∀ s, ¬ violates mdp3 [5; 0; 0] [0; 0; 0] s) ∨
     (∃ s, r = Z.of_nat s ∧ (s < length mdp3)%nat ∧
        violates mdp3 [5; 0; 0] [0; 0; 0] s ∧
        (∀ s', (s' < s)%nat → ¬ violates mdp3 [5; 0; 0] [0; 0; 0] s') ∧
        ∀ states2 policy2 natpolicy2,
          agree_upto s mdp3 [5; 0; 0] [0; 0; 0] states2 policy2 natpolicy2 →
          is_policy_correct states2 policy2 natpolicy2 = Ok (Z.of_nat s))).
Proof.
  split; [simpl; lia|]. split; [simpl; lia|].
  apply (@is_policy_correct_first_violation State State_StateType mdp3 [5; 0; 0] [0; 0; 0]);
    simpl; lia.
Defined.

(** C5 on the three-state model under action 1. *)
Lemma rewards_state_entries_witness :
  is_policy_correct mdp3 [1; 1; 1] [0; 0; 0] = Ok (-1) ∧
  ∃ rewards,
    rewards_state mdp3 [1; 1; 1] [0; 0; 0] = Ok rewards ∧
    length rewards = state_count mdp3 ∧
    ∀ s st, mdp3 !! s = Some st →
      reward_entry [1; 1; 1] [0; 0; 0] rewards s st.
Proof.
  split; [reflexivity|].
  apply (@rewards_state_entries State State_StateType State_StateLaws mdp3 [1; 1; 1] [0; 0; 0]).
  reflexivity.
Defined.

(** C1 on the three-state model under action 1. *)
Lemma transition_mat_t_is_transpose_witness :
  ∃ M Mt,
    transition_mat mdp3 [1; 1; 1] [0; 0; 0] = Ok M ∧
    transition_mat_t mdp3 [1; 1; 1] [0; 0; 0] = Ok Mt ∧
    ∀ s s', mat_get Mt s' s = mat_get M s s' ∧
            ((s < state_count mdp3 ∧ s' < state_count mdp3)%nat →
             is_Some (mat_get M s s')).
Proof.
  exists [[0; 1; 0]; [0; 0; 1]; [0; 0; 1]]%Qc,
         [[0; 0; 0]; [1; 0; 0]; [0; 1; 1]]%Qc.
  split; [vm_compute; reflexivity|]. split; [vm_compute; reflexivity|].
  apply (@transition_mat_t_is_transpose State State_StateType State_StateLaws
           mdp3 [1; 1; 1] [0; 0; 0]);
    vm_compute; reflexivity.
Defined.

(** C10 on the table [twice]: both builders return a matrix, and the entry
    of target 0 is 1/2, the probability listed last. *)
Lemma last_occurrence_wins_witness :
  resolved twice [0] [0] 0 =
    Some ([mk_entry 0 (Q2Qc (1 # 4)) 0%Qc] ++ mk_entry 0 (Q2Qc (1 # 2)) 0%Qc :: []) ∧
  (0 ∉ get_indices []) ∧
  (∀ s', (s' < length twice)%nat →
     ∃ t, resolved twice [0] [0] s' = Some t ∧
          targets_below (length twice) t) ∧
  (∃ M, transition_mat twice [0] [0] = Ok M ∧
        mat_get M 0 (Z.to_nat 0) = Some (Q2Qc (1 # 2))) ∧
  (∃ Mt, transition_mat_t twice [0] [0] = Ok Mt ∧
         mat_get Mt (Z.to_nat 0) 0 = Some (Q2Qc (1 # 2))).
Proof.
  assert (∀ s', (s' < length twice)%nat →
            ∃ t, resolved twice [0] [0] s' = Some t ∧
                 targets_below (length twice) t) as Hall.
  { intros [|s'] Hs'; [|simpl in Hs'; lia].
    eexists. split; [reflexivity|].
    intros e He. apply elem_of_cons in He as [->|He]; [simpl; lia|].
    apply list_elem_of_singleton in He as ->. simpl. lia. }
  split; [reflexivity|]. split; [apply not_elem_of_nil|].
  split; [exact Hall|].
  destruct (@last_occurrence_wins State State_StateType State_StateLaws
              twice [0] [0] 0%nat
              [mk_entry 0 (Q2Qc (1 # 4)) 0%Qc] []
              (mk_entry 0 (Q2Qc (1 # 2)) 0%Qc))
    as [Hforward Htransposed]; [reflexivity|apply not_elem_of_nil|].
  split.
  - exact (Hforward Hall).
  - apply Htransposed. intros s' st Hst _. apply Hall.
    by apply lookup_lt_Some in Hst.
Defined.

(** The entry written for a target listed twice is the last probability,
    1/2, and not the sum 3/4 of the two probabilities. *)
Example twice_last_not_sum :
  transition_mat twice [0] [0] = Ok [[Q2Qc (1 # 2)]] ∧
  transition_mat_t twice [0] [0] = Ok [[Q2Qc (1 # 2)]] ∧
  (sum_probabilities [mk_entry 0 (Q2Qc (1 # 4)) 0%Qc;
                      mk_entry 0 (Q2Qc (1 # 2)) 0%Qc] : Q) = (3 # 4)%Q.
Proof. split; [|split]; vm_compute; reflexivity. Qed.

(** C2, at a table with a terminal state. The pair [0,0] is correct on the
    table [absorbing]; [transition_mat_t] skips the terminal state 1 and
    returns the matrix with the zero column, [transition_mat] resolves a
    transition on state 1 and returns no matrix. *)
Theorem transition_mat_resolves_terminal :
  is_policy_correct absorbing [0; 0] [0; 0] = Ok (-1) ∧
  transition_mat_t absorbing [0; 0] [0; 0] = Ok [[0; 0]; [1; 0]]%Qc ∧
  transition_mat absorbing [0; 0] [0; 0] = Err Undefined.
Proof. split; [|split]; vm_compute; reflexivity. Qed.

(** C4 as the spec states it fails on the table [twice]: the pair [0] / [0]
    is correct, state 0 is not terminal, its row sums to 1/2 and its
    distribution has the total mass 3/4. *)
Lemma row_sums_counterexample :
  ¬ (∀ (states : list State) (policy nature : list Z),
       is_policy_correct states policy nature = Ok (-1) →
       ∃ M, transition_mat states policy nature = Ok M ∧
         ∀ s st, states !! s = Some st →
           ∃ row, M !! s = Some row ∧
             (is_terminal st = true → vec_sum row = 0%Qc) ∧
             (is_terminal st = false →
                ∃ t, resolved states policy nature s = Some t ∧
                     vec_sum row = sum_probabilities t)).
Proof.
  intros Hclaim.
  destruct (Hclaim twice [0] [0] eq_refl) as (M & HM & Hrows).
  assert (M = [[Q2Qc (1 # 2)]]) as ->.
  { vm_compute in HM. injection HM as <-. reflexivity. }
  destruct (Hrows 0%nat _ eq_refl) as (row & Hrow & _ & Hsum).
  injection Hrow as <-.
  destruct (Hsum eq_refl) as (t & Ht & Heq).
  assert (t = [mk_entry 0 (Q2Qc (1 # 4)) 0%Qc; mk_entry 0 (Q2Qc (1 # 2)) 0%Qc])
    as ->.
  { vm_compute in Ht. injection Ht as <-. reflexivity. }
  apply (f_equal this) in Heq. vm_compute in Heq. discriminate Heq.
Qed.

(** C4, as the code has it, on the three-state model under action 0. *)
Lemma transition_mat_row_sums_witness :
  is_policy_correct mdp3 [0; 0; 0] [0; 0; 0] = Ok (-1) ∧
  (∀ s st, mdp3 !! s = Some st → is_terminal st = false) ∧
  (∀ s t, resolved mdp3 [0; 0; 0] [0; 0; 0] s = Some t →
     targets_below (length mdp3) t) ∧
  ∃ M, transition_mat mdp3 [0; 0; 0] [0; 0; 0] = Ok M ∧
    ∀ s, (s < state_count mdp3)%nat →
      ∃ t row,
        resolved mdp3 [0; 0; 0] [0; 0; 0] s = Some t ∧
        M !! s = Some row ∧
        (NoDup (get_indices t) →
           vec_sum row = sum_probabilities t ∧
           (t_is_normalized t = true → vec_sum row = 1%Qc)).
Proof.
  assert (∀ s st, mdp3 !! s = Some st → is_terminal st = false) as Hnonterm.
  { intros [|[|[|s]]] st [= <-]; reflexivity. }
  assert (∀ s t, resolved mdp3 [0; 0; 0] [0; 0; 0] s = Some t →
            targets_below (length mdp3) t) as Htargets.
  { intros [|[|[|s]]] t [= <-] e He;
      apply list_elem_of_singleton in He as ->; simpl; lia. }
  split; [reflexivity|]. split; [exact Hnonterm|]. split; [exact Htargets|].
  apply (@transition_mat_row_sums State State_StateType State_StateLaws
           mdp3 [0; 0; 0] [0; 0; 0]); [reflexivity|exact Hnonterm|exact Htargets].
Defined.

(** C9 on the table [unnormalized]. *)
Lemma normalize_idempotent_witness :
  nonzero_weights unnormalized ∧
  ∃ states',
    normalize unnormalized = Ok states' ∧
    normalize states' = Ok states' ∧
    is_normalized states' = true.
Proof.
  assert (nonzero_weights unnormalized) as Hnz.
  { intros s a t Hs Ha Ht.
    apply list_elem_of_singleton in Hs as ->.
    apply list_elem_of_singleton in Ha as ->.
    apply list_elem_of_singleton in Ht as ->.
    intros Hzero. apply (f_equal this) in Hzero. vm_compute in Hzero.
    discriminate Hzero. }
  split; [exact Hnz|]. apply (normalize_idempotent unnormalized Hnz).
Defined.

(** The table [unnormalized] after [normalize]: the weights 1 and 3 become
    1/4 and 3/4. *)
Example normalize_unnormalized :
  ∃ states',
    normalize unnormalized = Ok states' ∧
    map (λ s, map (λ a, map (λ t, map (λ e, this (e_prob e)) t)
                             (outcomes a)) (actions s)) states'
      = [[[[(1 # 4)%Q; (3 # 4)%Q]]]].
Proof. eexists. split; vm_compute; reflexivity. Qed.

(** * Further properties of the container *)

(** ** Loops *)

(** Two bodies that agree on the iterations of a loop give the same loop. *)
Lemma for_loop_ext {A : Type} (body1 body2 : nat → A → res A)
    (count from : nat) (acc : A) :
  (∀ i a, (from ≤ i < from + count)%nat → body1 i a = body2 i a) →
  for_loop from count body1 acc = for_loop from count body2 acc.
Proof.
  revert from acc. induction count as [|count IH]; intros from acc Hext; [done|].
  simpl. rewrite Hext by lia. destruct (body2 from acc) as [acc'|e]; [|done].
  simpl. apply IH. intros i a Hi. apply Hext. lia.
Qed.

(** A loop whose body leaves the accumulator as it is returns it. *)
Lemma for_loop_fixed {A : Type} (body : nat → A → res A)
    (count from : nat) (acc : A) :
  (∀ i, (from ≤ i < from + count)%nat → body i acc = Ok acc) →
  for_loop from count body acc = Ok acc.
Proof.
  revert from. induction count as [|count IH]; intros from Hfix; [done|].
  simpl. rewrite Hfix by lia. simpl. apply IH. intros i Hi. apply Hfix. lia.
Qed.

(** ** Creating and reading states *)

Section GRMDP_create.
Context {SType : Type} `{StateType SType}.

(** [create_state(id)] followed by [get_state(id)] on the table it leaves
    returns the state that [create_state] returned. *)
Theorem create_state_get_state (states states' : list SType)
    (stateid : Z) (st : SType) :
  create_state states stateid = Ok (states', st) →
  get_state states' stateid = Ok st.
Proof.
  unfold create_state. case_decide as Hid; [|discriminate].
  intros Hcreate. apply bind_Ok in Hcreate as (st' & Hget & [= <- <-]).
  pose proof Hget as Hlookup. apply vec_get_Ok, lookup_lt_Some in Hlookup.
  unfold get_state, state_count. by rewrite decide_True by lia.
Qed.

(** [create_state(id)] on the id of an existing state leaves the table as
    it is and returns that state. *)
Theorem create_state_existing (states : list SType) (stateid : Z) (st : SType) :
  get_state states stateid = Ok st →
  create_state states stateid = Ok (states, st).
Proof.
  unfold get_state, state_count, create_state.
  case_decide as Hin; [|discriminate]. intros Hget.
  rewrite decide_True by lia. rewrite decide_False by lia.
  by rewrite Hget.
Qed.

(** Calling [create_state(id)] a second time changes nothing. *)
Theorem create_state_idempotent (states states' : list SType)
    (stateid : Z) (st : SType) :
  create_state states stateid = Ok (states', st) →
  create_state states' stateid = Ok (states', st).
Proof.
  intros Hcreate. apply create_state_existing.
  by apply (create_state_get_state states).
Qed.

(** [GRMDP(n)] holds [n] states, and it is the table that
    [create_state(n - 1)] builds from the empty one. *)
Theorem GRMDP_new_create_state (n : nat) :
  state_count (GRMDP_new n) = n ∧
  ((0 < n)%nat →
     create_state [] (Z.of_nat n - 1) = Ok (GRMDP_new n, state_default)).
Proof.
  unfold state_count, GRMDP_new. split; [apply length_replicate|].
  intros Hn. unfold create_state.
  rewrite decide_True by lia. rewrite decide_True by (simpl; lia).
  unfold vec_resize. simpl.
  replace (Z.to_nat (Z.of_nat n - 1 + 1)) with n by lia.
  rewrite take_nil, Nat.sub_0_r. simpl.
  unfold vec_get. rewrite lookup_replicate_2 by lia. done.
Qed.

End GRMDP_create.

(** ** Terminal states and the policy pair *)

Section GRMDP_terminal.
Context {SType : Type} `{StateType SType}.

Lemma is_policy_correct_from_agree (states : list SType)
    (policy1 : ActionPolicy) (nature1 : OutcomePolicy)
    (policy2 : ActionPolicy) (nature2 : OutcomePolicy) (count si : nat) :
  agree_nonterminal states policy1 nature1 policy2 nature2 →
  is_policy_correct_from states policy1 nature1 si count =
  is_policy_correct_from states policy2 nature2 si count.
Proof.
  intros Hagree. revert si. induction count as [|count IH]; intros si; [done|].
  simpl. unfold vec_get at 1 4.
  destruct (states !! si) as [st|] eqn:Hst; [|done]. simpl.
  destruct (is_terminal st) eqn:Hterm; [apply IH|].
  destruct (Hagree si st Hst Hterm) as [Hp Hn].
  unfold vec_get. rewrite Hp, Hn.
  destruct (policy2 !! si) as [a|]; [|done]. simpl.
  destruct (nature2 !! si) as [o|]; [|done]. simpl.
  by rewrite IH.
Qed.

(** [is_policy_correct] does not look at the action and the outcome chosen
    for a terminal state: two policy pairs that agree on the non-terminal
    states get the same answer, even where one of them has no entry. *)
Theorem is_policy_correct_ignores_terminal (states : list SType)
    (policy1 : ActionPolicy) (nature1 : OutcomePolicy)
    (policy2 : ActionPolicy) (nature2 : OutcomePolicy) :
  agree_nonterminal states policy1 nature1 policy2 nature2 →
  is_policy_correct states policy1 nature1 =
  is_policy_correct states policy2 nature2.
Proof. intros Hagree. by apply is_policy_correct_from_agree. Qed.

(** [rewards_state] does not look at the action and the outcome chosen for
    a terminal state either. *)
Theorem rewards_state_ignores_terminal (states : list SType)
    (policy1 : ActionPolicy) (nature1 : OutcomePolicy)
    (policy2 : ActionPolicy) (nature2 : OutcomePolicy) :
  agree_nonterminal states policy1 nature1 policy2 nature2 →
  rewards_state states policy1 nature1 = rewards_state states policy2 nature2.
Proof.
  intros Hagree. unfold rewards_state. apply for_loop_ext.
  intros i rewards Hi. unfold rewards_state_body.
  destruct (get_state states (Z.of_nat i)) as [st|e] eqn:Hget; [|done]. simpl.
  destruct (is_terminal st) eqn:Hterm; [done|].
  assert (states !! i = Some st) as Hst.
  { unfold get_state in Hget. case_decide; [|discriminate].
    apply vec_get_Ok in Hget. by rewrite Nat2Z.id in Hget. }
  destruct (Hagree i st Hst Hterm) as [Hp Hn].
  unfold vec_get. by rewrite Hp, Hn.
Qed.

(** Nor does [transition_mat_t]. *)
Theorem transition_mat_t_ignores_terminal (states : list SType)
    (policy1 : ActionPolicy) (nature1 : OutcomePolicy)
    (policy2 : ActionPolicy) (nature2 : OutcomePolicy) :
  agree_nonterminal states policy1 nature1 policy2 nature2 →
  transition_mat_t states policy1 nature1 =
  transition_mat_t states policy2 nature2.
Proof.
  intros Hagree. unfold transition_mat_t. apply for_loop_ext.
  intros i M Hi. unfold transition_mat_t_body. unfold vec_get at 1 4.
  destruct (states !! i) as [st|] eqn:Hst; [|done]. simpl.
  destruct (is_terminal st) eqn:Hterm; [done|].
  destruct (Hagree i st Hst Hterm) as [Hp Hn].
  unfold vec_get. by rewrite Hp, Hn.
Qed.

(** On a table whose states are all terminal, whatever the policy pair
    (the empty vectors included): the validator accepts it, every reward is
    0 and the transposed transition matrix is the zero matrix. *)
Theorem all_terminal_table (states : list SType)
    (policy : ActionPolicy) (nature : OutcomePolicy) :
  (∀ s st, states !! s = Some st → is_terminal st = true) →
  is_policy_correct states policy nature = Ok (-1) ∧
  rewards_state states policy nature =
    Ok (replicate (state_count states) 0%Qc) ∧
  transition_mat_t states policy nature =
    Ok (zero_matrix (state_count states) (state_count states)).
Proof.
  intros Hterm. split; [|split].
  - unfold is_policy_correct.
    assert (∀ count si, (si + count ≤ length states)%nat →
      is_policy_correct_from states policy nature si count = Ok (-1)) as Hscan.
    { induction count as [|count IH]; intros si Hsi; [done|]. simpl.
      destruct (lookup_lt_is_Some_2 states si) as [st Hst]; [lia|].
      unfold vec_get. rewrite Hst. simpl. rewrite (Hterm si st Hst).
      apply IH. lia. }
    by apply Hscan.
  - unfold rewards_state. apply for_loop_fixed. intros i Hi.
    unfold state_count in Hi.
    destruct (lookup_lt_is_Some_2 states i) as [st Hst]; [lia|].
    unfold rewards_state_body. rewrite (get_state_lookup _ _ _ Hst). simpl.
    rewrite (Hterm i st Hst). unfold vec_set.
    rewrite length_replicate, decide_True by (unfold state_count; lia).
    f_equal. apply list_insert_id, lookup_replicate_2.
    unfold state_count. lia.
  - unfold transition_mat_t. apply for_loop_fixed. intros i Hi.
    unfold state_count in Hi.
    destruct (lookup_lt_is_Some_2 states i) as [st Hst]; [lia|].
    unfold transition_mat_t_body, vec_get. rewrite Hst. simpl.
    by rewrite (Hterm i st Hst).
Qed.

End GRMDP_terminal.

(** ** When the matrix builders are defined, and the shape of their result *)

Lemma mat_set_lengths (M M' : list (list Qc)) (i j : Z) (x : Qc) (n m : nat) :
  mat_set M i j x = Ok M' →
  length M = n ∧ Forall (λ row, length row = m) M →
  length M' = n ∧ Forall (λ row, length row = m) M'.
Proof.
  unfold mat_set. case_decide; [|discriminate].
  destruct (M !! Z.to_nat i) as [row|] eqn:Hrow; [|discriminate].
  case_decide; [|discriminate]. intros [= <-] [Hlen Hrows].
  split; [by rewrite length_insert|].
  apply Forall_insert; [done|]. rewrite length_insert.
  by apply (Forall_lookup_1 _ _ _ _ Hrows Hrow).
Qed.

Lemma fill_body_lengths (cell : Z → Z * Z) (t : list entry)
    (M M' : list (list Qc)) (n m : nat) :
  for_loop 0 (t_size t) (fill_body cell t) M = Ok M' →
  length M = n ∧ Forall (λ row, length row = m) M →
  length M' = n ∧ Forall (λ row, length row = m) M'.
Proof.
  intros Hloop Hshape.
  apply (for_loop_inv
    (λ _ Mk, length Mk = n ∧ Forall (λ row, length row = m) Mk)
    _ _ _ _ _ Hloop); [done|].
  intros k Mk Mk' _ Hk Hbody. unfold fill_body in Hbody.
  apply bind_Ok in Hbody as (idx & _ & Hbody).
  apply bind_Ok in Hbody as (p & _ & Hbody).
  by eapply mat_set_lengths.
Qed.

Lemma zero_matrix_lengths (n m : nat) :
  length (zero_matrix n m) = n ∧
  Forall (λ row, length row = m) (zero_matrix n m).
Proof.
  unfold zero_matrix. split; [apply length_replicate|].
  apply Forall_replicate, length_replicate.
Qed.

Section GRMDP_defined.
Context {SType : Type} `{StateType SType}.

(** [transition_mat] returns a matrix exactly when every state of the table
    resolves to a distribution under the policy pair and every target of
    these distributions is the id of a state of the table. *)
Theorem transition_mat_defined_iff (states : list SType)
    (policy : ActionPolicy) (nature : OutcomePolicy) :
  (∃ M, transition_mat states policy nature = Ok M) ↔
  (∀ s, (s < state_count states)%nat →
     ∃ t, resolved states policy nature s = Some t ∧
          targets_below (state_count states) t).
Proof.
  split.
  - intros [M [_ Hrows]%transition_mat_rows] s Hs.
    destruct (Hrows s Hs) as (t & Hres & Hbelow & _). by exists t.
  - apply transition_mat_total.
Qed.

(** [transition_mat_t] returns a matrix exactly when every state that is
    not terminal resolves to a distribution whose targets are ids of states
    of the table; nothing is asked of the terminal states. *)
Theorem transition_mat_t_defined_iff (states : list SType)
    (policy : ActionPolicy) (nature : OutcomePolicy) :
  (∃ M, transition_mat_t states policy nature = Ok M) ↔
  (∀ s st, states !! s = Some st → is_terminal st = false →
     ∃ t, resolved states policy nature s = Some t ∧
          targets_below (state_count states) t).
Proof.
  split.
  - intros [M [_ Hcols]%transition_mat_t_cols] s st Hst Hterm.
    destruct (Hcols s st Hst) as [_ Hcol].
    destruct (Hcol Hterm) as (t & Hres & Hbelow & _). by exists t.
  - apply transition_mat_t_total.
Qed.

(** A matrix returned by either builder has one row per state, and every
    row has one entry per state. *)
Theorem transition_matrices_square (states : list SType)
    (policy : ActionPolicy) (nature : OutcomePolicy) (M : list (list Qc)) :
  transition_mat states policy nature = Ok M ∨
  transition_mat_t states policy nature = Ok M →
  length M = state_count states ∧
  ∀ row, row ∈ M → length row = state_count states.
Proof.
  set (n := state_count states).
  assert (∀ body,
    (∀ i Mi Mi', body i Mi = Ok Mi' →
       length Mi = n ∧ Forall (λ row, length row = n) Mi →
       length Mi' = n ∧ Forall (λ row, length row = n) Mi') →
    for_loop 0 n body (zero_matrix n n) = Ok M →
    length M = n ∧ ∀ row, row ∈ M → length row = n) as Hloop.
  { intros body Hbody Hfor.
    destruct (for_loop_inv
      (λ _ Mi, length Mi = n ∧ Forall (λ row, length row = n) Mi)
      _ _ _ _ _ Hfor) as [Hlen Hrows].
    - apply zero_matrix_lengths.
    - intros i Mi Mi' _ Hshape Hi. by eapply Hbody.
    - split; [done|]. by apply Forall_forall. }
  intros [HM|HM].
  - apply (Hloop (transition_mat_body states policy nature)); [|done].
    intros i Mi Mi' Hbody. unfold transition_mat_body in Hbody.
    apply bind_Ok in Hbody as (st & _ & Hbody).
    apply bind_Ok in Hbody as (a & _ & Hbody).
    apply bind_Ok in Hbody as (o & _ & Hbody).
    apply bind_Ok in Hbody as (t & _ & Hbody).
    rewrite fill_row_body_shape in Hbody. by eapply fill_body_lengths.
  - apply (Hloop (transition_mat_t_body states policy nature)); [|done].
    intros i Mi Mi' Hbody. unfold transition_mat_t_body in Hbody.
    apply bind_Ok in Hbody as (st & _ & Hbody).
    destruct (is_terminal st); [by injection Hbody as <-|].
    apply bind_Ok in Hbody as (a & _ & Hbody).
    apply bind_Ok in Hbody as (o & _ & Hbody).
    apply bind_Ok in Hbody as (t & _ & Hbody).
    rewrite fill_col_body_shape in Hbody. by eapply fill_body_lengths.
Qed.

(** In the matrix of [transition_mat_t], the column of a terminal state is
    zero. *)
Theorem transition_mat_t_terminal_column (states : list SType)
    (policy : ActionPolicy) (nature : OutcomePolicy) (M : list (list Qc))
    (s : nat) (st : SType) :
  transition_mat_t states policy nature = Ok M →
  states !! s = Some st → is_terminal st = true →
  ∀ j, (j < state_count states)%nat → mat_get M j s = Some 0%Qc.
Proof.
  intros [_ Hcols]%transition_mat_t_cols Hst Hterm.
  destruct (Hcols s st Hst) as [Hzero _]. by apply Hzero.
Qed.

(** The builders start from the zero matrix: the entry of a target that the
    distribution of state [s] does not list is 0, in row [s] of
    [transition_mat] and in column [s] of [transition_mat_t]. *)
Theorem unlisted_target_zero (states : list SType)
    (policy : ActionPolicy) (nature : OutcomePolicy)
    (s j : nat) (t : list entry) :
  resolved states policy nature s = Some t →
  Z.of_nat j ∉ get_indices t →
  (j < state_count states)%nat →
  (∀ M, transition_mat states policy nature = Ok M →
     mat_get M s j = Some 0%Qc) ∧
  (∀ Mt, transition_mat_t states policy nature = Ok Mt →
     mat_get Mt j s = Some 0%Qc).
Proof.
  intros Hres Hnot Hj.
  pose proof (last_prob_not_listed t j Hnot) as Hnone.
  apply resolved_Some in Hres as Hst. destruct Hst as (st & _ & _ & Hst & _).
  pose proof (lookup_lt_Some _ _ _ Hst) as Hs.
  split.
  - intros M [_ Hrows]%transition_mat_rows.
    destruct (Hrows s Hs) as (t' & Hres' & _ & Hrow).
    assert (t' = t) as -> by congruence.
    by rewrite Hrow, Hnone.
  - intros Mt [_ Hcols]%transition_mat_t_cols.
    destruct (Hcols s st Hst) as [Hzero Hcol].
    destruct (is_terminal st) eqn:Hterm; [by apply Hzero|].
    destruct (Hcol eq_refl) as (t' & Hres' & _ & Hcol').
    assert (t' = t) as -> by congruence.
    by rewrite Hcol', Hnone.
Qed.

End GRMDP_defined.

(** ** Normalization and rewards, without assumptions on the state type *)

Lemma forallb_true_iff {A : Type} (f : A → bool) (l : list A) :
  forallb f l = true ↔ ∀ x, x ∈ l → f x = true.
Proof.
  split; [|apply forallb_elem_of].
  induction l as [|x l IH]; intros Hall y Hy; [by apply elem_of_nil in Hy|].
  simpl in Hall. apply andb_true_iff in Hall as [Hx Hl].
  apply elem_of_cons in Hy as [->|Hy]; [done|by apply IH].
Qed.

Lemma res_map_Forall2 {A B : Type} (f : A → res B) (l : list A) (l' : list B) :
  res_map f l = Ok l' ↔ Forall2 (λ x y, f x = Ok y) l l'.
Proof.
  revert l'. induction l as [|x l IH]; intros l'; simpl.
  - split.
    + intros [= <-]. constructor.
    + intros Hall. by inversion Hall.
  - split.
    + intros Hmap. apply bind_Ok in Hmap as (y & Hy & Hmap).
      apply bind_Ok in Hmap as (k & Hk & [= <-]).
      constructor; [done|by apply IH].
    + intros Hall. inversion Hall as [|? y ? k Hy Hk]; subst.
      rewrite Hy. simpl. rewrite (proj2 (IH k) Hk). done.
Qed.

Section GRMDP_sweeps.
Context {SType : Type} `{StateType SType}.

(** [is_normalized] returns true exactly when every outcome of every action
    of every state is normalized; a state without actions and an action
    without outcomes do not stand in the way. *)
Theorem is_normalized_iff (states : list SType) :
  is_normalized states = true ↔
  ∀ s a t, s ∈ states → a ∈ get_actions s → t ∈ get_outcomes a →
    t_is_normalized t = true.
Proof.
  unfold is_normalized. rewrite forallb_true_iff. split.
  - intros Hall s a t Hs Ha Ht.
    specialize (Hall s Hs). rewrite forallb_true_iff in Hall.
    specialize (Hall a Ha). rewrite forallb_true_iff in Hall.
    by apply Hall.
  - intros Hall s Hs. apply forallb_true_iff. intros a Ha.
    apply forallb_true_iff. intros t Ht. by apply (Hall s a t).
Qed.

(** [normalize] returns a table exactly when every state normalizes; the
    table it returns has the normalized states in the places of the states
    they come from, hence as many states. *)
Theorem normalize_pointwise (states states' : list SType) :
  normalize states = Ok states' ↔
  Forall2 (λ s s', state_normalize s = Ok s') states states'.
Proof. apply res_map_Forall2. Qed.

Lemma rewards_state_sound (states : list SType)
    (policy : ActionPolicy) (nature : OutcomePolicy) (rewards : list Qc) :
  rewards_state states policy nature = Ok rewards →
  length rewards = state_count states ∧
  ∀ s st, states !! s = Some st → reward_entry policy nature rewards s st.
Proof.
  unfold rewards_state. set (n := state_count states). intros Hloop.
  destruct (for_loop_inv
    (λ i rw, length rw = n ∧
       ∀ s st, (s < i)%nat → states !! s = Some st →
         reward_entry policy nature rw s st)
    _ _ _ _ _ Hloop) as [Hlen Hentries].
  - split; [apply length_replicate|]. intros s st Hs. lia.
  - intros i rw rw' Hi [Hlen Hentries] Hbody.
    unfold rewards_state_body in Hbody.
    apply bind_Ok in Hbody as (st & Hget & Hbody).
    assert (states !! i = Some st) as Hst.
    { unfold get_state in Hget. case_decide; [|discriminate].
      apply vec_get_Ok in Hget. by rewrite Nat2Z.id in Hget. }
    assert (∃ x, rw' = <[i := x]> rw ∧ (i < length rw)%nat ∧
                 reward_entry policy nature rw' i st) as (x & -> & Hlt & Hhere).
    { destruct (is_terminal st) eqn:Hterm.
      - apply vec_set_Ok in Hbody as [Hlt ->]. exists 0%Qc.
        split; [done|]. split; [done|]. split; [|intros ?; congruence].
        intros _. by apply list_lookup_insert_eq.
      - apply bind_Ok in Hbody as (a & Ha & Hbody).
        apply bind_Ok in Hbody as (o & Ho & Hbody).
        apply bind_Ok in Hbody as (r & Hr & Hbody).
        apply vec_get_Ok in Ha, Ho. apply vec_set_Ok in Hbody as [Hlt ->].
        exists r. split; [done|]. split; [done|].
        split; [intros ?; congruence|]. intros _.
        exists a, o, r. split_and!; [done..|].
        by apply list_lookup_insert_eq. }
    split; [by rewrite length_insert|].
    intros s st' Hs Hst'.
    destruct (decide (s = i)) as [->|Hne]; [by simplify_eq|].
    destruct (Hentries s st') as [Hzero Hmean]; [lia|done|].
    split.
    + intros Hterm. rewrite list_lookup_insert_ne by done. by apply Hzero.
    + intros Hterm. destruct (Hmean Hterm) as (a & o & r & Ha & Ho & Hr & Hrw).
      exists a, o, r. split_and!; [done..|].
      by rewrite list_lookup_insert_ne by done.
  - split; [done|]. intros s st Hst. apply Hentries; [|done].
    apply lookup_lt_Some in Hst. unfold n, state_count. lia.
Qed.

Lemma rewards_state_total (states : list SType)
    (policy : ActionPolicy) (nature : OutcomePolicy) :
  rewards_resolve states policy nature →
  ∃ rewards, rewards_state states policy nature = Ok rewards.
Proof.
  intros Hres. unfold rewards_state. set (n := state_count states).
  destruct (for_loop_total (λ _ rw, length rw = n)
    (rewards_state_body states policy nature) n 0 (replicate n 0%Qc))
    as (rewards & Hloop & _); [apply length_replicate| |by exists rewards].
  intros i rw Hi Hlen. unfold n, state_count in Hi.
  destruct (lookup_lt_is_Some_2 states i) as [st Hst]; [lia|].
  unfold rewards_state_body. rewrite (get_state_lookup _ _ _ Hst). simpl.
  unfold vec_set. destruct (is_terminal st) eqn:Hterm.
  - rewrite decide_True by (unfold n, state_count in Hlen; lia).
    eexists. split; [done|]. by rewrite length_insert.
  - destruct (Hres i st Hst Hterm) as (a & o & r & Ha & Ho & Hr).
    unfold vec_get. rewrite Ha, Ho. simpl. rewrite Hr. simpl.
    rewrite decide_True by (unfold n, state_count in Hlen; lia).
    eexists. split; [done|]. by rewrite length_insert.
Qed.

(** [rewards_state] returns the vector [rewards] exactly when [rewards] has
    one entry per state, 0 for a terminal state and otherwise the reward
    that the state resolves for the action and the outcome chosen for it.
    Nothing is asked of the policy pair at terminal states. *)
Theorem rewards_state_iff (states : list SType)
    (policy : ActionPolicy) (nature : OutcomePolicy) (rewards : list Qc) :
  rewards_state states policy nature = Ok rewards ↔
  length rewards = state_count states ∧
  ∀ s st, states !! s = Some st → reward_entry policy nature rewards s st.
Proof.
  split; [apply rewards_state_sound|]. intros [Hlen Hentries].
  destruct (rewards_state_total states policy nature) as [rewards' Hrw].
  { intros s st Hst Hterm.
    destruct (Hentries s st Hst) as [_ Hmean].
    destruct (Hmean Hterm) as (a & o & r & Ha & Ho & Hr & _). by exists a, o, r. }
  rewrite Hrw. f_equal.
  apply rewards_state_sound in Hrw as [Hlen' Hentries'].
  apply list_eq. intros s.
  destruct (states !! s) as [st|] eqn:Hst.
  - destruct (Hentries s st Hst) as [Hzero Hmean].
    destruct (Hentries' s st Hst) as [Hzero' Hmean'].
    destruct (is_terminal st) eqn:Hterm.
    + by rewrite Hzero, Hzero'.
    + destruct (Hmean eq_refl) as (a & o & r & Ha & Ho & Hr & ->).
      destruct (Hmean' eq_refl) as (a' & o' & r' & Ha' & Ho' & Hr' & ->).
      congruence.
  - apply lookup_ge_None in Hst. unfold state_count in *.
    rewrite !(proj2 (lookup_ge_None _ _)) by lia. done.
Qed.

End GRMDP_sweeps.

Section GRMDP_validated.
Context {SType : Type} `{StateLaws SType}.

(** A policy pair that [is_policy_correct] accepts is enough for
    [transition_mat_t], terminal states or not, as long as the distributions
    target states of the table. *)
Theorem validated_transition_mat_t (states : list SType)
    (policy : ActionPolicy) (nature : OutcomePolicy) :
  is_policy_correct states policy nature = Ok (-1) →
  (∀ s t, resolved states policy nature s = Some t →
     targets_below (state_count states) t) →
  ∃ M, transition_mat_t states policy nature = Ok M.
Proof.
  intros Hcorrect Htargets. apply transition_mat_t_total.
  intros s st Hst Hterm.
  destruct (is_policy_correct_from_accepts _ _ _ _ _ Hcorrect s st)
    as (a & o & Ha & Ho & Hok);
    [apply lookup_lt_Some in Hst; lia|done|done|].
  destruct (correct_mean_transition st a o Hok) as [t Ht].
  assert (resolved states policy nature s = Some t) as Hres.
  { apply resolved_Some. by exists st, a, o. }
  exists t. split; [done|]. by apply (Htargets s).
Qed.

End GRMDP_validated.

(** ** Export *)

Lemma string_app_assoc (a b c : string) :
  (a +:+ b) +:+ c = a +:+ (b +:+ c).
Proof.
  induction a as [|ch a IH]; [done|].
  change (String ch ((a +:+ b) +:+ c) = String ch (a +:+ (b +:+ c))).
  by rewrite IH.
Qed.

Lemma string_app_nil_r (a : string) : a +:+ "" = a.
Proof.
  induction a as [|ch a IH]; [done|].
  change (String ch (a +:+ "") = String ch a). by rewrite IH.
Qed.

Lemma concat_text_app (l1 l2 : list string) :
  concat_text (l1 ++ l2) = concat_text l1 +:+ concat_text l2.
Proof.
  induction l1 as [|x l1 IH]; [done|].
  change (x +:+ concat_text (l1 ++ l2) = (x +:+ concat_text l1) +:+ concat_text l2).
  by rewrite IH, string_app_assoc.
Qed.

(** A loop over the positions of a list that appends a text for each
    element appends the texts of all elements, in order. *)
Lemma for_loop_emit {A : Type} (l : list A) (g : nat → A → string)
    (body : nat → string → res string) (from : nat) (out : string) :
  (∀ i x o, l !! i = Some x →
     body (from + i)%nat o = Ok (o +:+ g (from + i)%nat x)) →
  for_loop from (length l) body out =
    Ok (out +:+ concat_text (imap (λ i, g (from + i)%nat) l)).
Proof.
  revert from out. induction l as [|x l IH]; intros from out Hbody.
  - simpl. by rewrite string_app_nil_r.
  - simpl. specialize (Hbody 0%nat x out eq_refl) as Hhere.
    rewrite Nat.add_0_r in Hhere. rewrite Hhere. simpl.
    rewrite (IH (S from)).
    + f_equal. rewrite string_app_assoc. f_equal.
      change (concat_text (g (from + 0)%nat x ::
                imap ((λ i, g (from + i)%nat) ∘ S) l))
        with (g (from + 0)%nat x +:+
                concat_text (imap ((λ i, g (from + i)%nat) ∘ S) l)).
      rewrite Nat.add_0_r. f_equal. f_equal. apply imap_ext.
      intros i y _. simpl. f_equal. lia.
    + intros i y o Hy. replace (S from + i)%nat with (from + S i)%nat by lia.
      by apply Hbody.
Qed.

Lemma for_loop_emit_all {A : Type} (l : list A) (g : nat → A → string)
    (body : nat → string → res string) (out : string) :
  (∀ i x o, l !! i = Some x → body i o = Ok (o +:+ g i x)) →
  for_loop 0 (length l) body out = Ok (out +:+ concat_text (imap g l)).
Proof. intros Hbody. by apply (for_loop_emit l g body 0). Qed.

Lemma pop_back_comma (a : string) : pop_back (a +:+ ",") = Ok a.
Proof.
  induction a as [|ch a IH]; [done|].
  change (pop_back (String ch (a +:+ ",")) = Ok (String ch a)).
  destruct a as [|ch' a].
  - done.
  - change (String ch' a +:+ ",") with (String ch' (a +:+ ",")) in *.
    simpl. simpl in IH. by rewrite IH.
Qed.

(** Texts that each end with a comma, one after the other, are the texts
    separated by commas, and a last comma. *)
Lemma concat_text_commas (x : string) (xs : list string) :
  concat_text (map (λ y, y +:+ ",") (x :: xs)) =
    String.concat "," (x :: xs) +:+ ",".
Proof.
  revert x. induction xs as [|y ys IH]; intros x.
  - simpl. by rewrite string_app_nil_r.
  - change (concat_text (map (λ y, y +:+ ",") (x :: y :: ys)))
      with ((x +:+ ",") +:+ concat_text (map (λ y, y +:+ ",") (y :: ys))).
    rewrite IH.
    change (String.concat "," (x :: y :: ys))
      with (x +:+ "," +:+ String.concat "," (y :: ys)).
    by rewrite !string_app_assoc.
Qed.

Section GRMDP_export_properties.
Context {SType : Type} `{StateType SType}.
Variable show_prec : Qc → string.
Variable state_to_json : SType → Z → string.

(** [to_csv] never fails: every access of its four loops is in range. It
    appends to the stream the header line, if asked for, and then one row
    for every entry of every outcome, in the order of the states, of their
    actions, of their outcomes and of the entries. *)
Theorem to_csv_text (states : list SType) (output : string) (header : bool) :
  to_csv show_prec states output header =
    Ok (output +:+ (if header then csv_header else "") +:+
        csv_text show_prec states).
Proof.
  assert (∀ out,
    for_loop 0 (length states) (to_csv_states show_prec states) out =
      Ok (out +:+ csv_text show_prec states)) as Hstates.
  { intros out. unfold csv_text.
    apply for_loop_emit_all. intros i st o Hst.
    unfold to_csv_states, vec_get. rewrite Hst. simpl.
    apply for_loop_emit_all. intros j act o' Hact.
    unfold to_csv_actions, vec_get. rewrite Hact. simpl.
    apply for_loop_emit_all. intros k tran o'' Htran.
    unfold to_csv_outcomes, vec_get. rewrite Htran. simpl.
    apply for_loop_emit_all. intros l e o''' He.
    unfold to_csv_entries, vec_get, get_indices, get_probabilities, get_rewards.
    by rewrite !list_lookup_fmap, He. }
  unfold to_csv. rewrite Hstates. destruct header.
  - by rewrite string_app_assoc.
  - done.
Qed.

(** States that own no action write nothing: a table exports the same text
    with or without such states at its end. *)
Theorem to_csv_drops_trailing_terminal (states states' : list SType)
    (output : string) (header : bool) :
  (∀ st, st ∈ states' → get_actions st = []) →
  to_csv show_prec (states ++ states') output header =
  to_csv show_prec states output header.
Proof.
  intros Hnone. rewrite !to_csv_text. do 3 f_equal.
  unfold csv_text. rewrite imap_app, concat_text_app.
  rewrite <- (string_app_nil_r (concat_text (imap _ states))) at 2. f_equal.
  induction states' as [|st states' IH] using rev_ind; [done|].
  rewrite imap_app, concat_text_app. rewrite IH.
  - simpl. rewrite (Hnone st); [done|]. apply elem_of_app. right. by left.
  - intros st' Hst'. apply Hnone. apply elem_of_app. by left.
Qed.

(** [to_json] never fails. Its text is the opening of the object, the
    texts of the states in ascending id order separated by commas, with no
    comma after the last one, and the closing; for the empty table nothing
    stands between the brackets. *)
Theorem to_json_text (states : list SType) :
  to_json state_to_json states =
    Ok (json_open +:+
        String.concat "," (json_states state_to_json states) +:+ "]}").
Proof.
  unfold to_json.
  assert (for_loop 0 (length states) (to_json_body state_to_json states)
            json_open =
          Ok (json_open +:+
              concat_text (map (λ y, y +:+ ",")
                             (json_states state_to_json states)))) as ->.
  { rewrite (for_loop_emit_all states
               (λ si s, state_to_json s (Z.of_nat si) +:+ ",")).
    - do 2 f_equal. unfold json_states.
      change (map ?f ?l) with (f <$> l). by rewrite fmap_imap.
    - intros i s o Hs. simpl. unfold to_json_body, vec_get. rewrite Hs. simpl.
      by rewrite string_app_assoc. }
  cbn [bind]. destruct states as [|s states].
  - rewrite bool_decide_eq_false_2 by (intros Hne; by apply Hne).
    cbn [bind]. unfold json_states. simpl. by rewrite string_app_nil_r.
  - rewrite bool_decide_eq_true_2 by done.
    unfold json_states. rewrite imap_cons.
    rewrite concat_text_commas, <- string_app_assoc, pop_back_comma.
    cbn [bind]. by rewrite string_app_assoc.
Qed.

End GRMDP_export_properties.

(** ** The further properties on concrete models *)

(** The export of the table [absorbing], without header. *)
Example absorbing_csv :
  to_csv show_fraction absorbing "" false =
    Ok ("0,0,0,1,1/1,0/1" +:+ endl).
Proof. vm_compute. reflexivity. Qed.

(** The JSON text of the three-state model when every state prints as its
    id. *)
Example mdp3_json :
  to_json (λ _ si, pretty si) mdp3 =
    Ok ("{" +:+ dquote +:+ "states" +:+ dquote +:+ " : [0,1,2]}").
Proof. vm_compute. reflexivity. Qed.

Lemma create_state_get_state_witness :
  ∃ states' st,
    create_state mdp3 5 = Ok (states', st) ∧ get_state states' 5 = Ok st.
Proof.
  eexists _, _. split; [reflexivity|].
  apply (@create_state_get_state State State_StateType mdp3). reflexivity.
Defined.

Lemma create_state_existing_witness :
  ∃ st, get_state mdp3 1 = Ok st ∧ create_state mdp3 1 = Ok (mdp3, st).
Proof.
  eexists. split; [reflexivity|].
  apply (@create_state_existing State State_StateType mdp3 1). reflexivity.
Defined.

Lemma create_state_idempotent_witness :
  ∃ states' st,
    create_state mdp3 5 = Ok (states', st) ∧
    create_state states' 5 = Ok (states', st).
Proof.
  eexists _, _. split; [reflexivity|].
  apply (@create_state_idempotent State State_StateType mdp3). reflexivity.
Defined.

Lemma GRMDP_new_create_state_witness :
  (0 < 3)%nat ∧
  state_count (GRMDP_new 3 : list State) = 3%nat ∧
  create_state ([] : list State) (Z.of_nat 3 - 1) =
    Ok (GRMDP_new 3, state_default).
Proof.
  split; [lia|]. split.
  - apply (@GRMDP_new_create_state State State_StateType 3).
  - apply (@GRMDP_new_create_state State State_StateType 3). lia.
Defined.

(** On [absorbing], the pair [0] / [0] has no entry for the terminal state
    1 and agrees with [0,0] / [0,0] on state 0. *)
Lemma absorbing_agree :
  @agree_nonterminal State State_StateType absorbing [0; 0] [0; 0] [0] [0].
Proof.
  intros [|[|s]] st Hst Hterm; simpl in Hst; simplify_eq; done.
Qed.

Lemma is_policy_correct_ignores_terminal_witness :
  @agree_nonterminal State State_StateType absorbing [0; 0] [0; 0] [0] [0] ∧
  is_policy_correct absorbing [0; 0] [0; 0] = is_policy_correct absorbing [0] [0].
Proof.
  split; [exact absorbing_agree|].
  apply (@is_policy_correct_ignores_terminal State State_StateType absorbing).
  exact absorbing_agree.
Defined.

Lemma rewards_state_ignores_terminal_witness :
  @agree_nonterminal State State_StateType absorbing [0; 0] [0; 0] [0] [0] ∧
  rewards_state absorbing [0; 0] [0; 0] = rewards_state absorbing [0] [0].
Proof.
  split; [exact absorbing_agree|].
  apply (@rewards_state_ignores_terminal State State_StateType absorbing).
  exact absorbing_agree.
Defined.

Lemma transition_mat_t_ignores_terminal_witness :
  @agree_nonterminal State State_StateType absorbing [0; 0] [0; 0] [0] [0] ∧
  transition_mat_t absorbing [0; 0] [0; 0] = transition_mat_t absorbing [0] [0].
Proof.
  split; [exact absorbing_agree|].
  apply (@transition_mat_t_ignores_terminal State State_StateType absorbing).
  exact absorbing_agree.
Defined.

Lemma all_terminal_table_witness :
  (∀ s st, (GRMDP_new 2 : list State) !! s = Some st → is_terminal st = true) ∧
  is_policy_correct (GRMDP_new 2 : list State) [] [] = Ok (-1) ∧
  rewards_state (GRMDP_new 2 : list State) [] [] =
    Ok (replicate (state_count (GRMDP_new 2 : list State)) 0%Qc) ∧
  transition_mat_t (GRMDP_new 2 : list State) [] [] =
    Ok (zero_matrix (state_count (GRMDP_new 2 : list State))
                    (state_count (GRMDP_new 2 : list State))).
Proof.
  assert (∀ s st, (GRMDP_new 2 : list State) !! s = Some st →
            is_terminal st = true) as Hterm.
  { intros [|[|s]] st Hst; simpl in Hst; simplify_eq; done. }
  split; [exact Hterm|].
  apply (@all_terminal_table State State_StateType (GRMDP_new 2) [] []).
  exact Hterm.
Defined.

Lemma transition_matrices_square_witness :
  ∃ M, transition_mat mdp3 [1; 1; 1] [0; 0; 0] = Ok M ∧
       length M = state_count mdp3 ∧
       ∀ row, row ∈ M → length row = state_count mdp3.
Proof.
  eexists. split; [vm_compute; reflexivity|].
  apply (@transition_matrices_square State State_StateType
           mdp3 [1; 1; 1] [0; 0; 0]).
  left. vm_compute. reflexivity.
Defined.

Lemma transition_mat_t_terminal_column_witness :
  ∃ M, transition_mat_t absorbing [0; 0] [0; 0] = Ok M ∧
       absorbing !! 1%nat = Some (mk_state []) ∧
       is_terminal (mk_state []) = true ∧
       ∀ j, (j < state_count absorbing)%nat → mat_get M j 1 = Some 0%Qc.
Proof.
  eexists. split; [vm_compute; reflexivity|].
  split; [reflexivity|]. split; [reflexivity|].
  apply (@transition_mat_t_terminal_column State State_StateType
           absorbing [0; 0] [0; 0] _ 1%nat (mk_state []));
    [vm_compute|..]; reflexivity.
Defined.

Lemma unlisted_target_zero_witness :
  resolved mdp3 [1; 1; 1] [0; 0; 0] 0 = Some [mk_entry 1 1%Qc 0%Qc] ∧
  (Z.of_nat 2 ∉ get_indices [mk_entry 1 1%Qc 0%Qc]) ∧
  (2 < state_count mdp3)%nat ∧
  (∀ M, transition_mat mdp3 [1; 1; 1] [0; 0; 0] = Ok M →
     mat_get M 0 2 = Some 0%Qc) ∧
  (∀ Mt, transition_mat_t mdp3 [1; 1; 1] [0; 0; 0] = Ok Mt →
     mat_get Mt 2 0 = Some 0%Qc).
Proof.
  assert (Z.of_nat 2 ∉ get_indices [mk_entry 1 1%Qc 0%Qc]) as Hnot.
  { intros Hin. apply list_elem_of_singleton in Hin. discriminate Hin. }
  split; [reflexivity|]. split; [exact Hnot|]. split; [simpl; lia|].
  apply (@unlisted_target_zero State State_StateType
           mdp3 [1; 1; 1] [0; 0; 0] 0%nat 2%nat [mk_entry 1 1%Qc 0%Qc]);
    [reflexivity|exact Hnot|simpl; lia].
Defined.

Lemma validated_transition_mat_t_witness :
  is_policy_correct absorbing [0; 0] [0; 0] = Ok (-1) ∧
  (∀ s t, resolved absorbing [0; 0] [0; 0] s = Some t →
     targets_below (state_count absorbing) t) ∧
  ∃ M, transition_mat_t absorbing [0; 0] [0; 0] = Ok M.
Proof.
  assert (∀ s t, resolved absorbing [0; 0] [0; 0] s = Some t →
            targets_below (state_count absorbing) t) as Htargets.
  { intros [|[|s]] t [= <-] e He.
    apply list_elem_of_singleton in He as ->. simpl. lia. }
  split; [reflexivity|]. split; [exact Htargets|].
  apply (@validated_transition_mat_t State State_StateType State_StateLaws
           absorbing [0; 0] [0; 0]); [reflexivity|exact Htargets].
Defined.

Lemma to_csv_drops_trailing_terminal_witness :
  (∀ st, st ∈ [mk_state []; mk_state []] → get_actions st = []) ∧
  to_csv show_fraction (mdp3 ++ [mk_state []; mk_state []]) "" true =
  to_csv show_fraction mdp3 "" true.
Proof.
  assert (∀ st, st ∈ [mk_state []; mk_state []] → get_actions st = [])
    as Hnone.
  { intros st Hst. apply elem_of_cons in Hst as [->|Hst]; [done|].
    apply list_elem_of_singleton in Hst as ->. done. }
  split; [exact Hnone|].
  apply (@to_csv_drops_trailing_terminal State State_StateType show_fraction
           mdp3 [mk_state []; mk_state []] "" true).
  exact Hnone.
Defined.
